(** * Geometry and ColorDodgeBlend

    A shallow embedding of
    [src/rendering/renderers/shared/geometry/Geometry.ts] and
    [src/rendering/filters/blend-modes/ColorDodgeBlend.ts].

    - JavaScript numbers are IEEE binary64 values: Rocq's primitive floats.
    - A JavaScript object used as a record of named properties is the list
      of its own (key, value) pairs in creation order, enumerated by
      [for_in_keys] the way [for ... in] does (array-index keys first,
      ascending). A read of a key the object does not have falls through to
      [Object.prototype] ([JS.read]). An assignment stores the value under
      its key. The one key for which the source does otherwise is
      [__proto__]: there the accessor of [Object.prototype] makes the
      assigned Attribute the prototype of the record. The model keeps that
      Attribute under the key, which is what a read of [__proto__] returns
      afterwards; that other names can inherit from it from then on is not
      modelled, and the statements about reads of attributes leave the key
      out.
    - Objects with identity (Buffer, Bounds) live in heaps and are referred to
      by their index.
    - A method is a function from the world to an outcome ([Return] or
      [Throw]) and the world it leaves behind: a thrown TypeError does not
      undo the assignments made before it.
    - Callbacks of the surrounding program are opaque: that one runs is
      recorded in the trace, and it changes nothing else.
    - The shader functions are evaluated on exact rationals extended with one
      non-finite value; rounding and overflow of 32-bit floats are outside
      the model. *)

From Stdlib Require Import ZArith QArith Qcanon Qround.
From Stdlib Require Import PrimFloat Uint63 SpecFloat FloatOps Ascii String List.
From stdpp Require Import base option list strings numbers.

Local Open Scope string_scope.
Local Open Scope list_scope.

(** ** JavaScript numbers and the operators the source uses *)

Module JS.

(** [undefined] or a number: an optional numeric property. *)
Definition optnum := option float.

(** ToNumber: [undefined] becomes NaN. *)
Definition to_number (v : optnum) : float :=
  match v with
  | Some x => x
  | None => nan
  end.

(** ToBoolean on a number: NaN, +0 and -0 are falsy. *)
Definition truthy (x : float) : bool :=
  negb (PrimFloat.is_nan x || PrimFloat.is_zero x).

(** [a / b] *)
Definition div (a b : optnum) : float :=
  PrimFloat.div (to_number a) (to_number b).

(** [a || b] with a number on the left *)
Definition or (a : float) (b : optnum) : optnum :=
  if truthy a then Some a else b.

(** [a ?? b] *)
Definition nullish {A} (a : option A) (b : A) : A :=
  match a with
  | Some x => x
  | None => b
  end.

(** The length of an array, as a number. *)
Definition length_number {A} (l : list A) : float :=
  PrimFloat.of_uint63 (Uint63.of_Z (Z.of_nat (length l))).

(** *** Property keys and enumeration order *)

Definition digit_of (c : ascii) : option N :=
  let n := N_of_ascii c in
  if ((48 <=? n) && (n <=? 57))%N then Some (n - 48)%N else None.

Fixpoint digits_value (s : string) (acc : N) : option N :=
  match s with
  | EmptyString => Some acc
  | String c r =>
      match digit_of c with
      | Some d => digits_value r (10 * acc + d)%N
      | None => None
      end
  end.

(** A key is an array index when it is the canonical decimal form of an
    integer below 2^32 - 1. *)
Definition array_index (k : string) : option N :=
  match k with
  | EmptyString => None
  | String c r =>
      if (Ascii.eqb c "0"%char && negb (String.eqb r ""))%bool then None
      else
        match digits_value k 0 with
        | Some v => if (v <? 2 ^ 32 - 1)%N then Some v else None
        | None => None
        end
  end.

(** An object as its own properties in creation order. *)
Definition object (V : Type) := list (string * V).

(** The own property [k] of [o], if it has one. *)
Fixpoint get {V} (o : object V) (k : string) : option V :=
  match o with
  | [] => None
  | (k', v) :: r => if String.eqb k k' then Some v else get r k
  end.

(** [o[k] = v]: an existing property keeps its place. *)
Fixpoint set {V} (k : string) (v : V) (o : object V) : object V :=
  match o with
  | [] => [(k, v)]
  | (k', v') :: r =>
      if String.eqb k k' then (k, v) :: r else (k', v') :: set k v r
  end.

Fixpoint insert_index (i : N) (k : string) (l : list (N * string))
  : list (N * string) :=
  match l with
  | [] => [(i, k)]
  | (j, k') :: r =>
      if (i <=? j)%N then (i, k) :: l else (j, k') :: insert_index i k r
  end.

Fixpoint index_keys {V} (o : object V) : list (N * string) :=
  match o with
  | [] => []
  | (k, _) :: r =>
      match array_index k with
      | Some i => insert_index i k (index_keys r)
      | None => index_keys r
      end
  end.

Fixpoint name_keys {V} (o : object V) : list string :=
  match o with
  | [] => []
  | (k, _) :: r =>
      match array_index k with
      | Some _ => name_keys r
      | None => k :: name_keys r
      end
  end.

(** The keys [for (const k in o)] visits, in order: array indices
    ascending, then the other keys in creation order. *)
Definition for_in_keys {V} (o : object V) : list string :=
  map snd (index_keys o) ++ name_keys o.

(** *** Reading a property of an object literal *)

(** The properties of [Object.prototype], which an object made by [{}]
    inherits. *)
Definition Object_prototype : list string :=
  ["constructor"; "hasOwnProperty"; "isPrototypeOf"; "propertyIsEnumerable";
   "toLocaleString"; "toString"; "valueOf"; "__defineGetter__";
   "__defineSetter__"; "__lookupGetter__"; "__lookupSetter__"; "__proto__"].

Definition inherited (k : string) : bool :=
  existsb (String.eqb k) Object_prototype.

(** What [o[k]] evaluates to: the value of the property [k] of [o] itself,
    the member [k] of [Object.prototype], or [undefined]. *)
Inductive property (V : Type) :=
| own (v : V)
| builtin (k : string)
| undefined.
Arguments own {V}.
Arguments builtin {V}.
Arguments undefined {V}.

Definition read {V} (o : object V) (k : string) : property V :=
  match get o k with
  | Some v => own v
  | None => if inherited k then builtin k else undefined
  end.

End JS.

(** ** ColorDodgeBlend: the shader functions of the two backends *)

Module Shader.

(** A shader float: an exact rational, or a non-finite value (an infinity
    or a NaN). *)
Inductive sample :=
| Fin (q : Qc)
| NonFinite.

Definition lift2 (f : Qc -> Qc -> Qc) (x y : sample) : sample :=
  match x, y with
  | Fin a, Fin b => Fin (f a b)
  | _, _ => NonFinite
  end.

Definition add := lift2 Qcplus.
Definition sub := lift2 Qcminus.
Definition mul := lift2 Qcmult.

(** Division: a zero divisor gives a non-finite quotient. The one non-finite
    value stands for the infinities and for NaN alike, so a quotient with a
    non-finite operand is left non-finite. *)
Definition div (x y : sample) : sample :=
  match x, y with
  | Fin a, Fin b => if Qc_eq_bool b 0 then NonFinite else Fin (a / b)
  | _, _ => NonFinite
  end.

Definition one : sample := Fin 1.

Record vec3 := Vec3 { r : sample; g : sample; b : sample }.
Record vec4 := Vec4 { rgb : vec3; a : sample }.

(** [v * s] and [v + w] on vec3, componentwise *)
Definition scale (v : vec3) (s : sample) : vec3 :=
  Vec3 (mul (r v) s) (mul (g v) s) (mul (b v) s).

Definition vadd (v w : vec3) : vec3 :=
  Vec3 (add (r v) (r w)) (add (g v) (g w)) (add (b v) (b w)).

(** The [gl] entry (GLSL). *)
Module gl.

Definition colorDodge (base blend : sample) : sample :=
  div base (sub one blend).

Definition blendColorDodge (base blend : vec3) (opacity : sample) : vec3 :=
  let blended :=
    Vec3 (colorDodge (r base) (r blend))
         (colorDodge (g base) (g blend))
         (colorDodge (b base) (b blend)) in
  vadd (scale blended opacity) (scale base (sub one opacity)).

(** [fragColor = ...] as the value written *)
Definition main (back front : vec4) (uBlend : sample) : vec4 :=
  Vec4 (blendColorDodge (rgb back) (rgb front) (a front)) uBlend.

End gl.

(** The [gpu] entry (WGSL). *)
Module gpu.

Definition colorDodge (base blend : sample) : sample :=
  div base (sub one blend).

Definition blendColorDodge (base blend : vec3) (opacity : sample) : vec3 :=
  let blended :=
    Vec3 (colorDodge (r base) (r blend))
         (colorDodge (g base) (g blend))
         (colorDodge (b base) (b blend)) in
  vadd (scale blended opacity) (scale base (sub one opacity)).

(** [out = ...] as the value written *)
Definition main (back front : vec4) (uBlend : sample) : vec4 :=
  Vec4 (blendColorDodge (rgb back) (rgb front) (a front)) uBlend.

End gpu.

(** A colour channel of a vec3. *)
Inductive channel :=
| red
| green
| blue.

Definition get_channel (c : channel) (v : vec3) : sample :=
  match c with
  | red => r v
  | green => g v
  | blue => b v
  end.

(** The formula of the specification, on rationals: [base / (1 - blend)]. *)
Definition dodge_formula (base blend : Qc) : Qc := (base / (1 - blend))%Qc.

(** The interpolation of the specification:
    [blended * opacity + base * (1 - opacity)]. *)
Definition mix_formula (blended base opacity : sample) : sample :=
  add (mul blended opacity) (mul base (sub one opacity)).

End Shader.


(** ** Geometry: buffers, listeners and the world *)

(** A listener registered on a Buffer: the Geometry's [onBufferUpdate] with
    the Geometry as context, or a callback of the surrounding program. *)
Inductive Listener :=
| onBufferUpdate_listener
| callback (id : nat).

#[global] Instance Listener_eq_dec : EqDecision Listener.
Proof. solve_decision. Defined.

(** The registrations of an EventEmitter, in the order of the [on] calls. *)
Definition Events (L : Type) := list (string * L).

Definition on {L} (event : string) (fn : L) (e : Events L) : Events L :=
  e ++ [(event, fn)].

Fixpoint listeners {L} (event : string) (e : Events L) : list L :=
  match e with
  | [] => []
  | (ev, fn) :: rest =>
      if String.eqb ev event then fn :: listeners event rest
      else listeners event rest
  end.

(** Modelled from the spec: Buffer, the external owner of raw sample memory,
    which emits change notifications and has a destroy of its own. *)
Record Buffer := mkBuffer {
  data : list float;
  index_usage : bool;
  buffer_events : Events Listener;
  destroyed : bool
}.

(** [Buffer | TypedArray | number[]]: an existing Buffer, named by its place
    in the heap, or an array of numbers. *)
Inductive BufferLike :=
| a_Buffer (ref : nat)
| a_TypedArray (xs : list float)
| a_number_array (xs : list float).

(** The properties of [Attribute]; [B] is the type of its [buffer]. *)
Record AttributeOf (B : Type) := mkAttribute {
  buffer : B;
  format : option string;
  stride : JS.optnum;
  offset : JS.optnum;
  instance : option bool;
  size : JS.optnum;
  start : JS.optnum;
  divisor : JS.optnum
}.
Arguments mkAttribute {B}.
Arguments buffer {B}.
Arguments format {B}.
Arguments stride {B}.
Arguments offset {B}.
Arguments instance {B}.
Arguments size {B}.
Arguments start {B}.
Arguments divisor {B}.

Definition Attribute := AttributeOf nat.

Inductive AttributeOption :=
| described (d : AttributeOf BufferLike)
| bare (b : BufferLike).

Record GeometryDescriptor := mkDescriptor {
  d_label : option string;
  d_attributes : option (JS.object AttributeOption);
  d_indexBuffer : option BufferLike;
  d_topology : option string;
  d_instanceCount : JS.optnum
}.

(** The fields of a Geometry. [None] is [null] (or [undefined]); the
    listeners of the Geometry itself are callbacks of the surrounding
    program. [uid] comes from a counter outside this file and is left out. *)
Record Geometry := mkGeometry {
  topology : option string;
  attributes : option (JS.object Attribute);
  buffers : option (list nat);
  indexBuffer : option nat;
  _layoutKey : float;
  instanceCount : float;
  _bounds : option nat;
  _boundsDirty : bool;
  _events : Events nat
}.

(** What a run leaves behind, in order. *)
Inductive Effect :=
| emitted (event : string)
| invoked (event : string) (id : nat)
| buffer_invoked (ref : nat) (event : string) (id : nat)
| handler_run
| recomputed (attributeId : string)
| buffer_destroy (ref : nat).

#[global] Instance Effect_eq_dec : EqDecision Effect.
Proof. solve_decision. Defined.

(** The parts of the repository that [Geometry.ts] imports and that are not
    in this file: the Bounds class and the box [getGeometryBounds] computes
    ([None] when it throws). *)
Class BoundsCalculator := {
  Bounds : Type;
  Bounds_new : Bounds;
  bounds_box :
    string -> JS.object Attribute -> list Buffer -> Bounds -> option Bounds
}.

(** A call returns or throws. *)
Inductive Error :=
| TypeError.

Inductive Outcome (A : Type) :=
| Return (a : A)
| Throw (e : Error).
Arguments Return {A}.
Arguments Throw {A}.

Section Model.
Context `{BoundsCalculator}.

Record World := mkWorld {
  geometry : Geometry;
  buffer_heap : list Buffer;
  bounds_heap : list Bounds;
  trace : list Effect
}.

Definition M (A : Type) : Type := World -> Outcome A * World.

Definition ret {A} (a : A) : M A := fun w => (Return a, w).

Definition bind {A B} (m : M A) (k : A -> M B) : M B :=
  fun w =>
    match m w with
    | (Return a, w') => k a w'
    | (Throw e, w') => (Throw e, w')
    end.

Definition throw {A} (e : Error) : M A := fun w => (Throw e, w).

Definition this : M Geometry := fun w => (Return (geometry w), w).

Definition assign (f : Geometry -> Geometry) : M unit :=
  fun w =>
    (Return tt,
     mkWorld (f (geometry w)) (buffer_heap w) (bounds_heap w) (trace w)).

Definition log (e : Effect) : M unit :=
  fun w =>
    (Return tt,
     mkWorld (geometry w) (buffer_heap w) (bounds_heap w) (trace w ++ [e])).

Definition update_buffer (ref : nat) (f : Buffer -> Buffer) : M unit :=
  fun w =>
    (Return tt,
     mkWorld (geometry w) (alter f ref (buffer_heap w)) (bounds_heap w)
       (trace w)).

Definition world : M World := fun w => (Return w, w).

Definition read_buffer (ref : nat) : M (option Buffer) :=
  fun w => (Return (buffer_heap w !! ref), w).

Definition write_bounds (ref : nat) (box : Bounds) : M unit :=
  fun w =>
    (Return tt,
     mkWorld (geometry w) (buffer_heap w) (<[ref := box]> (bounds_heap w))
       (trace w)).

Definition alloc_buffer (b : Buffer) : M nat :=
  fun w =>
    (Return (length (buffer_heap w)),
     mkWorld (geometry w) (buffer_heap w ++ [b]) (bounds_heap w) (trace w)).

#[global] Instance M_ret : MRet M := @ret.
#[global] Instance M_bind : MBind M := fun A B k m => bind m k.

Fixpoint for_each {A} (f : A -> M unit) (l : list A) : M unit :=
  match l with
  | [] => ret tt
  | x :: rest => f x;; for_each f rest
  end.

(** *** Field assignments *)

Definition set_topology (v : option string) (g : Geometry) : Geometry :=
  mkGeometry v (attributes g) (buffers g) (indexBuffer g) (_layoutKey g)
    (instanceCount g) (_bounds g) (_boundsDirty g) (_events g).

Definition set_attributes (v : option (JS.object Attribute)) (g : Geometry)
  : Geometry :=
  mkGeometry (topology g) v (buffers g) (indexBuffer g) (_layoutKey g)
    (instanceCount g) (_bounds g) (_boundsDirty g) (_events g).

Definition set_buffers (v : option (list nat)) (g : Geometry) : Geometry :=
  mkGeometry (topology g) (attributes g) v (indexBuffer g) (_layoutKey g)
    (instanceCount g) (_bounds g) (_boundsDirty g) (_events g).

Definition set_indexBuffer (v : option nat) (g : Geometry) : Geometry :=
  mkGeometry (topology g) (attributes g) (buffers g) v (_layoutKey g)
    (instanceCount g) (_bounds g) (_boundsDirty g) (_events g).

Definition set_instanceCount (v : float) (g : Geometry) : Geometry :=
  mkGeometry (topology g) (attributes g) (buffers g) (indexBuffer g)
    (_layoutKey g) v (_bounds g) (_boundsDirty g) (_events g).

Definition set_bounds (v : option nat) (g : Geometry) : Geometry :=
  mkGeometry (topology g) (attributes g) (buffers g) (indexBuffer g)
    (_layoutKey g) (instanceCount g) v (_boundsDirty g) (_events g).

Definition set_boundsDirty (v : bool) (g : Geometry) : Geometry :=
  mkGeometry (topology g) (attributes g) (buffers g) (indexBuffer g)
    (_layoutKey g) (instanceCount g) (_bounds g) v (_events g).

Definition set_events (v : Events nat) (g : Geometry) : Geometry :=
  mkGeometry (topology g) (attributes g) (buffers g) (indexBuffer g)
    (_layoutKey g) (instanceCount g) (_bounds g) (_boundsDirty g) v.

(** *** EventEmitter, as the Geometry inherits it *)

(** [this.emit(event, this)] *)
Definition emit (event : string) : M unit :=
  log (emitted event);;
  g ← this;
  for_each (fun id => log (invoked event id)) (listeners event (_events g)).

(** [this.removeAllListeners()] *)
Definition removeAllListeners : M unit := assign (set_events []).

(** [geometry.on(event, fn)], called by the surrounding program *)
Definition Geometry_on (event : string) (id : nat) : M unit :=
  g ← this;
  assign (set_events (on event id (_events g))).

(** *** Buffer and the helpers imported by Geometry.ts *)

(** [buffer.on(event, fn, context)] *)
Definition Buffer_on (ref : nat) (event : string) (fn : Listener) : M unit :=
  update_buffer ref
    (fun b =>
       mkBuffer (data b) (index_usage b) (on event fn (buffer_events b))
         (destroyed b)).

(** Modelled from the spec: Buffer.destroy, the buffer's own destroy, after
    which the buffer reports itself destroyed. *)
Definition Buffer_destroy (ref : nat) : M unit :=
  log (buffer_destroy ref);;
  update_buffer ref
    (fun b => mkBuffer (data b) (index_usage b) (buffer_events b) true).

(** Modelled from the spec: ensureIsBuffer, which wraps an input that is not
    a Buffer into a new Buffer (of index usage when [index] is set) and
    returns an existing Buffer as it is. *)
Definition ensureIsBuffer (buffer : BufferLike) (index : bool) : M nat :=
  match buffer with
  | a_Buffer ref => ret ref
  | a_TypedArray xs => alloc_buffer (mkBuffer xs index [] false)
  | a_number_array xs => alloc_buffer (mkBuffer xs index [] false)
  end.

(** Modelled from the spec: getGeometryBounds, which computes the box of the
    attribute named [attributeId], writes it into the Bounds object it is
    given and returns that object; reading a [null] Geometry field or
    writing into [null] is a TypeError. *)
Definition getGeometryBounds (attributeId : string) (out : option nat)
  : M (option nat) :=
  log (recomputed attributeId);;
  g ← this;
  w ← world;
  match attributes g, out with
  | Some attrs, Some ref =>
      match bounds_heap w !! ref with
      | Some old =>
          match bounds_box attributeId attrs (buffer_heap w) old with
          | Some box => write_bounds ref box;; ret (Some ref)
          | None => throw TypeError
          end
      | None => throw TypeError
      end
  | _, _ => throw TypeError
  end.

(** [ensureIsAttribute]: a bare buffer is wrapped into a description, and
    the description's buffer is replaced by the Buffer it resolves to. The
    description is taken by value: that the source writes the Buffer back
    into the object of its caller is not observed here. *)
Definition ensureIsAttribute (attribute : AttributeOption) : M Attribute :=
  let attribute :=
    match attribute with
    | bare b => mkAttribute b None None None None None None None
    | described d => d
    end in
  ref ← ensureIsBuffer (buffer attribute) false;
  ret (mkAttribute ref (format attribute) (stride attribute)
         (offset attribute) (instance attribute) (size attribute)
         (start attribute) (divisor attribute)).

(** [Array.prototype.indexOf] on a list of references, counting from
    [from]; [-1] when absent. *)
Fixpoint indexOf (l : list nat) (x : nat) (from : Z) : Z :=
  match l with
  | [] => (-1)%Z
  | y :: rest => if Nat.eqb y x then from else indexOf rest x (from + 1)%Z
  end.

(** *** The methods of Geometry *)

Definition onBufferUpdate : M unit :=
  assign (set_boundsDirty true);;
  emit "update".

Definition getAttribute (id : string) : M (JS.property Attribute) :=
  g ← this;
  match attributes g with
  | Some attrs => ret (JS.read attrs id)
  | None => throw TypeError
  end.

Definition getIndex : M (option nat) :=
  g ← this;
  ret (indexBuffer g).

(** [this.getAttribute(id).buffer]: a member of [Object.prototype] has no
    property [buffer], and [undefined] has no properties at all. *)
Definition getBuffer (id : string) : M (option nat) :=
  attribute ← getAttribute id;
  match attribute with
  | JS.own a => ret (Some (buffer a))
  | JS.builtin _ => ret None
  | JS.undefined => throw TypeError
  end.

Definition getSize : M float :=
  g ← this;
  match attributes g with
  | None => ret 0%float
  | Some attrs =>
      match JS.for_in_keys attrs with
      | [] => ret 0%float
      | i :: _ =>
          match JS.get attrs i with
          | None => throw TypeError
          | Some attribute =>
              buffer ← read_buffer (buffer attribute);
              match buffer with
              | None => throw TypeError
              | Some buffer =>
                  ret (JS.div (Some (JS.length_number (data buffer)))
                         (JS.or (JS.div (stride attribute) (Some 4%float))
                            (size attribute)))
              end
          end
      end
  end.

Definition addAttribute (name : string) (attributeOption : AttributeOption)
  : M unit :=
  attribute ← ensureIsAttribute attributeOption;
  g ← this;
  match buffers g with
  | None => throw TypeError
  | Some bs =>
      let bufferIndex := indexOf bs (buffer attribute) 0 in
      (if (bufferIndex =? -1)%Z then
         assign (set_buffers (Some (bs ++ [buffer attribute])));;
         Buffer_on (buffer attribute) "update" onBufferUpdate_listener;;
         Buffer_on (buffer attribute) "change" onBufferUpdate_listener
       else ret tt);;
      g ← this;
      match attributes g with
      | None => throw TypeError
      | Some attrs => assign (set_attributes (Some (JS.set name attribute attrs)))
      end
  end.

Definition addIndex (indexBuffer : BufferLike) : M unit :=
  ref ← ensureIsBuffer indexBuffer true;
  assign (set_indexBuffer (Some ref));;
  g ← this;
  match buffers g with
  | None => throw TypeError
  | Some bs => assign (set_buffers (Some (bs ++ [ref])))
  end.

(** [get bounds()] *)
Definition bounds : M (option nat) :=
  g ← this;
  if negb (_boundsDirty g) then ret (_bounds g)
  else
    assign (set_boundsDirty false);;
    getGeometryBounds "aPosition" (_bounds g).

Definition destroy (destroyBuffers : bool) : M unit :=
  emit "destroy";;
  removeAllListeners;;
  (if destroyBuffers then
     g ← this;
     match buffers g with
     | None => throw TypeError
     | Some bs => for_each Buffer_destroy bs
     end
   else ret tt);;
  assign (set_attributes None);;
  assign (set_buffers None);;
  assign (set_indexBuffer None);;
  assign (set_bounds None).

(** [new Geometry(options)], in a program that holds the Buffers [heap]. *)
Definition new_Geometry (options : GeometryDescriptor) (heap : list Buffer)
  : Outcome unit * World :=
  (match d_attributes options with
   | Some attrs =>
       for_each
         (fun i =>
            match JS.get attrs i with
            | Some o => addAttribute i o
            | None => ret tt
            end)
         (JS.for_in_keys attrs)
   | None => ret tt
   end;;
   assign (set_instanceCount (JS.nullish (d_instanceCount options) 1%float));;
   match d_indexBuffer options with
   | Some ib => addIndex ib
   | None => ret tt
   end;;
   assign
     (set_topology
        (Some
           match d_topology options with
           | Some t => if String.eqb t "" then "triangle-list" else t
           | None => "triangle-list"
           end)))
    (mkWorld
       (mkGeometry None (Some []) (Some []) None 0%float 1%float (Some 0)
          true [])
       heap [Bounds_new] []).

(** *** The surrounding program *)

(** [buffer.emit(event, buffer)]: the listeners run in the order of their
    registration. *)
Definition Buffer_emit (ref : nat) (event : string) : M unit :=
  buffer ← read_buffer ref;
  match buffer with
  | None => ret tt
  | Some b =>
      for_each
        (fun fn =>
           match fn with
           | onBufferUpdate_listener => log handler_run;; onBufferUpdate
           | callback id => log (buffer_invoked ref event id)
           end)
        (listeners event (buffer_events b))
  end.

Inductive Call :=
| call_addAttribute (name : string) (attributeOption : AttributeOption)
| call_addIndex (indexBuffer : BufferLike)
| call_getAttribute (id : string)
| call_getIndex
| call_getBuffer (id : string)
| call_getSize
| call_bounds
| call_destroy (destroyBuffers : bool)
| call_on (event : string) (id : nat)
| call_new_Buffer (xs : list float) (index : bool)
| call_Buffer_on (ref : nat) (event : string) (id : nat)
| call_Buffer_emit (ref : nat) (event : string).

Definition discard {A} (m : M A) : M unit := m;; ret tt.

Definition call (c : Call) : M unit :=
  match c with
  | call_addAttribute name o => addAttribute name o
  | call_addIndex ib => addIndex ib
  | call_getAttribute id => discard (getAttribute id)
  | call_getIndex => discard getIndex
  | call_getBuffer id => discard (getBuffer id)
  | call_getSize => discard getSize
  | call_bounds => discard bounds
  | call_destroy destroyBuffers => destroy destroyBuffers
  | call_on event id => Geometry_on event id
  | call_new_Buffer xs index => discard (alloc_buffer (mkBuffer xs index [] false))
  | call_Buffer_on ref event id => Buffer_on ref event (callback id)
  | call_Buffer_emit ref event => Buffer_emit ref event
  end.

(** A sequence of calls; the caller goes on after a call that throws. *)
Fixpoint run (cs : list Call) (w : World) : World :=
  match cs with
  | [] => w
  | c :: rest => run rest (snd (call c w))
  end.

End Model.

(** ** The size the specification describes *)



Section Specification.
Context `{BoundsCalculator}.



End Specification.

(** ** Sample inputs *)

Definition box4 : Type := float * float * float * float.

Definition empty_box : box4 :=
  (infinity, infinity, neg_infinity, neg_infinity).

Fixpoint grow_box (xs : list float) (box : box4) : box4 :=
  match xs with
  | x :: y :: rest =>
      let '(x0, y0, x1, y1) := box in
      grow_box rest
        (if PrimFloat.ltb x x0 then x else x0,
         if PrimFloat.ltb y y0 then y else y0,
         if PrimFloat.ltb x1 x then x else x1,
         if PrimFloat.ltb y1 y then y else y1)
  | _ => box
  end.

(** A calculator to run the model with: the box of the (x, y) pairs of the
    named attribute's buffer. *)
#[global] Instance pair_box_calculator : BoundsCalculator := {|
  Bounds := box4;
  Bounds_new := empty_box;
  bounds_box := fun attributeId attrs heap _ =>
    match JS.get attrs attributeId with
    | None => Some (0, 0, 0, 0)%float
    | Some attribute =>
        match heap !! buffer attribute with
        | Some b => Some (grow_box (data b) empty_box)
        | None => None
        end
    end
|}.

Definition quad : list float := [0; 0; 0; 100; 100; 100; 100; 0]%float.

Definition attribute_of (b : BufferLike) (stride size : JS.optnum)
  : AttributeOption :=
  described (mkAttribute b None stride None None size None None).

Definition descriptor_of (attrs : JS.object AttributeOption)
  (ib : option BufferLike) : GeometryDescriptor :=
  mkDescriptor None (Some attrs) ib None None.

(** [new Geometry({ attributes: { aPosition: { buffer: quad, size: 2 } } })] *)
Definition quad_world : World :=
  snd (new_Geometry
         (descriptor_of
            [("aPosition", attribute_of (a_number_array quad) None (Some 2%float))]
            None)
         []).




(** The quad with an index buffer:
    [new Geometry({ attributes: { aPosition: { buffer: quad, size: 2 } },
    indexBuffer: [0, 1, 2] })]. *)
Definition indexed_quad_world : World :=
  snd (new_Geometry
         (descriptor_of
            [("aPosition", attribute_of (a_number_array quad) None (Some 2%float))]
            (Some (a_number_array [0; 1; 2]%float)))
         []).

(** A Buffer of the surrounding program, holding the quad, with no
    listener yet. *)
Definition quad_Buffer : Buffer := mkBuffer quad false [] false.

(** [new Geometry({ indexBuffer: B })] for the Buffer [B] above. *)
Definition index_first_world : World :=
  snd (new_Geometry (mkDescriptor None None (Some (a_Buffer 0)) None None)
         [quad_Buffer]).

(** Then [addAttribute("aPosition", B)] and a read of [bounds]. *)
Definition index_then_attribute_world : World :=
  run [call_addAttribute "aPosition" (bare (a_Buffer 0)); call_bounds]
    index_first_world.

(** [new Geometry({ attributes: { aPosition: B }, indexBuffer: B })] *)
Definition shared_index_world : World :=
  snd (new_Geometry
         (descriptor_of [("aPosition", bare (a_Buffer 0))] (Some (a_Buffer 0)))
         [quad_Buffer]).

(** ** Vocabulary of the statements *)

Section Vocabulary.
Context `{BoundsCalculator}.

(** The Geometry has not been destroyed: its collections are there. *)
Definition live (w : World) : Prop :=
  is_Some (attributes (geometry w)) /\ is_Some (buffers (geometry w)).

(** What [destroy] leaves: the collections and the cache are [null]. *)
Definition torn_down (w : World) : Prop :=
  attributes (geometry w) = None
  /\ buffers (geometry w) = None
  /\ _bounds (geometry w) = None.

Definition option_buffer (o : AttributeOption) : BufferLike :=
  match o with
  | described d => buffer d
  | bare b => b
  end.

(** The Buffer a buffer-like value resolves to in [w]: itself, or the
    Buffer that is created for an array. *)
Definition resolves_to (w : World) (b : BufferLike) : nat :=
  match b with
  | a_Buffer ref => ref
  | _ => length (buffer_heap w)
  end.

(** A buffer-like value names no Buffer that does not exist. *)
Definition well_formed (w : World) (b : BufferLike) : Prop :=
  match b with
  | a_Buffer ref => ref < length (buffer_heap w)
  | _ => True
  end.

(** How many of the listeners are the Geometry's [onBufferUpdate]. *)
Definition handler_count (ls : list Listener) : nat :=
  length (filter (fun fn => fn = onBufferUpdate_listener) ls).

(** How many times the Geometry's [onBufferUpdate] is registered for
    [event] on the Buffer [ref]. *)
Definition heap_subscriptions (heap : list Buffer) (ref : nat)
  (event : string) : nat :=
  match heap !! ref with
  | Some b => handler_count (listeners event (buffer_events b))
  | None => 0
  end.

Definition subscriptions (w : World) (ref : nat) (event : string) : nat :=
  heap_subscriptions (buffer_heap w) ref event.

(** How many entries of [buffers] are the Buffer [ref]. *)
Definition occurrences (ref : nat) (w : World) : nat :=
  match buffers (geometry w) with
  | Some bs => length (filter (fun x => x = ref) bs)
  | None => 0
  end.

(** The call passes the Buffer [ref] to [addAttribute]. *)
Definition adds_attribute_on (ref : nat) (c : Call) : Prop :=
  match c with
  | call_addAttribute _ o => option_buffer o = a_Buffer ref
  | _ => False
  end.

(** What [emit(event)] appends to the trace. *)
Definition emit_trace (event : string) (g : Geometry) : list Effect :=
  emitted event :: map (invoked event) (listeners event (_events g)).

(** What a listener of a Buffer appends to the trace when it runs. *)
Definition listener_trace (ref : nat) (event : string) (g : Geometry)
  (fn : Listener) : list Effect :=
  match fn with
  | onBufferUpdate_listener => handler_run :: emit_trace "update" g
  | callback id => [buffer_invoked ref event id]
  end.

(** The heap once [ensureIsBuffer] has resolved [b]. *)
Definition heap_resolved (w : World) (b : BufferLike) (index : bool)
  : list Buffer :=
  match b with
  | a_Buffer _ => buffer_heap w
  | a_TypedArray xs => buffer_heap w ++ [mkBuffer xs index [] false]
  | a_number_array xs => buffer_heap w ++ [mkBuffer xs index [] false]
  end.

(** The Attribute [ensureIsAttribute] makes of [o] once its buffer is
    resolved to [ref]. *)
Definition attribute_resolved (o : AttributeOption) (ref : nat) : Attribute :=
  match o with
  | bare _ => mkAttribute ref None None None None None None None
  | described d =>
      mkAttribute ref (format d) (stride d) (offset d) (instance d) (size d)
        (start d) (divisor d)
  end.

Definition subscribe (event : string) (b : Buffer) : Buffer :=
  mkBuffer (data b) (index_usage b)
    (on event onBufferUpdate_listener (buffer_events b)) (destroyed b).

Definition mark_destroyed (b : Buffer) : Buffer :=
  mkBuffer (data b) (index_usage b) (buffer_events b) true.

(** The fields [destroy] clears, cleared. *)
Definition nulled (g : Geometry) : Geometry :=
  set_bounds None
    (set_indexBuffer None (set_buffers None (set_attributes None g))).

(** The world in which the constructor starts: the field initialisers
    have run. *)
Definition initial_world (heap : list Buffer) : World :=
  mkWorld
    (mkGeometry None (Some []) (Some []) None 0%float 1%float (Some 0) true [])
    heap [Bounds_new] [].

(** A notification of [event] from the Buffer [ref] does not reach the
    Geometry: its fields stay as they are, [_boundsDirty] among them, and
    the trace gains nothing but callbacks of the surrounding program. *)
Definition unheard (w : World) (ref : nat) (event : string) : Prop :=
  geometry (snd (Buffer_emit ref event w)) = geometry w
  /\ exists added,
      trace (snd (Buffer_emit ref event w)) = trace w ++ added
      /\ Forall (fun e => exists id, e = buffer_invoked ref event id) added.

(** Every buffer an attribute or the index refers to is in [buffers]. *)
Definition references_held (w : World) : Prop :=
  forall attrs bs,
    attributes (geometry w) = Some attrs ->
    buffers (geometry w) = Some bs ->
    (forall name a, JS.get attrs name = Some a -> buffer a ∈ bs)
    /\ (forall ref, indexBuffer (geometry w) = Some ref -> ref ∈ bs).

(** The call is none of [addAttribute], [addIndex] and [destroy]. *)
Definition keeps_collections (c : Call) : Prop :=
  match c with
  | call_addAttribute _ _ => False
  | call_addIndex _ => False
  | call_destroy _ => False
  | _ => True
  end.

(** The [addAttribute] calls the constructor makes for a descriptor, in
    for-in order. *)
Definition attribute_calls (options : GeometryDescriptor) : list Call :=
  match d_attributes options with
  | Some attrs =>
      flat_map
        (fun i =>
           match JS.get attrs i with
           | Some o => [call_addAttribute i o]
           | None => []
           end)
        (JS.for_in_keys attrs)
  | None => []
  end.

(** The calls the constructor makes: those, then [addIndex]. *)
Definition constructor_calls (options : GeometryDescriptor) : list Call :=
  attribute_calls options
  ++ match d_indexBuffer options with
     | Some ib => [call_addIndex ib]
     | None => []
     end.

(** The two fields the constructor assigns from the descriptor. *)
Definition constructor_fields (options : GeometryDescriptor) (g : Geometry)
  : Geometry :=
  set_topology
    (Some
       match d_topology options with
       | Some t => if String.eqb t "" then "triangle-list" else t
       | None => "triangle-list"
       end)
    (set_instanceCount (JS.nullish (d_instanceCount options) 1%float) g).

(** The call is [geometry.on]. *)
Definition registers_listener (c : Call) : Prop :=
  match c with
  | call_on _ _ => True
  | _ => False
  end.

(** The call is none of a read of [bounds], a notification of a buffer and
    [destroy]. *)
Definition keeps_cache (c : Call) : Prop :=
  match c with
  | call_bounds => False
  | call_Buffer_emit _ _ => False
  | call_destroy _ => False
  | _ => True
  end.



(** The effect is the invocation of a listener of the Geometry. *)
Definition is_invoked (e : Effect) : bool :=
  match e with
  | invoked _ _ => true
  | _ => false
  end.

(** How many times listeners of the Geometry were invoked. *)
Definition invocations (t : list Effect) : nat :=
  length (filter (fun e => is_invoked e = true) t).

(** The call is not [addAttribute]. *)
Definition adds_no_attribute (c : Call) : Prop :=
  match c with
  | call_addAttribute _ _ => False
  | _ => True
  end.

(** The Geometry's [onBufferUpdate] is registered at most once for an event
    of a buffer, and only on entries of [buffers]. *)
Definition subscribed_once (w : World) : Prop :=
  forall ref event,
    subscriptions w ref event <= 1
    /\ (0 < subscriptions w ref event ->
        forall bs, buffers (geometry w) = Some bs -> ref ∈ bs).

(** The Geometry has its collections and the cache object the constructor
    made, or it has been destroyed. *)
Definition cache_in_place (w : World) : Prop :=
  (live w /\ _bounds (geometry w) = Some 0) \/ torn_down w.

(** The Buffer [ref] is an entry of [buffers], when the Geometry has its
    collections. *)
Definition held (ref : nat) (w : World) : Prop :=
  forall bs, buffers (geometry w) = Some bs -> ref ∈ bs.

(** [ref] is the Buffer that [b] resolved to in a program that held the
    Buffers [heap] before: the Buffer [b] itself, or a Buffer made since
    that holds the numbers of the array [b]. *)
Definition resolved_from (heap : list Buffer) (w : World) (b : BufferLike)
  (ref : nat) : Prop :=
  match b with
  | a_Buffer r => ref = r
  | a_TypedArray xs | a_number_array xs =>
      length heap <= ref
      /\ exists buf, buffer_heap w !! ref = Some buf /\ data buf = xs
  end.

Definition with_trace (w : World) (t : list Effect) : World :=
  mkWorld (geometry w) (buffer_heap w) (bounds_heap w) t.

Definition with_geometry (w : World) (g : Geometry) : World :=
  mkWorld g (buffer_heap w) (bounds_heap w) (trace w).

End Vocabulary.

(** * Properties *)

(** ** ColorDodgeBlend *)

Section ShaderProperties.
Import Shader.

Lemma sub_one_Fin (x : Qc) : sub one (Fin x) = Fin (1 - x).
Proof. reflexivity. Qed.

Lemma Qc_eq_bool_false (x y : Qc) : x <> y -> Qc_eq_bool x y = false.
Proof.
  intros Hne. destruct (Qc_eq_bool x y) eqn:E; [|reflexivity].
  apply Qc_eq_bool_correct in E. contradiction.
Qed.

Lemma one_minus_nonzero (x : Qc) : x <> 1%Qc -> (1 - x)%Qc <> 0%Qc.
Proof.
  intros Hne Hz. apply Hne. symmetry.
  rewrite <- (Qcplus_0_l x), <- Hz. ring.
Qed.

Lemma div_Fin (x y : Qc) : y <> 0%Qc -> div (Fin x) (Fin y) = Fin (x / y).
Proof. intros Hy. unfold div. now rewrite Qc_eq_bool_false. Qed.

Lemma div_by_zero (x : sample) : div x (Fin 0) = NonFinite.
Proof. destruct x; reflexivity. Qed.

Lemma gl_colorDodge_finite (base blend : Qc) :
  blend <> 1%Qc ->
  gl.colorDodge (Fin base) (Fin blend) = Fin (dodge_formula base blend).
Proof.
  intros Hb. unfold gl.colorDodge. rewrite sub_one_Fin.
  apply div_Fin, one_minus_nonzero, Hb.
Qed.

Lemma gpu_colorDodge_finite (base blend : Qc) :
  blend <> 1%Qc ->
  gpu.colorDodge (Fin base) (Fin blend) = Fin (dodge_formula base blend).
Proof.
  intros Hb. unfold gpu.colorDodge. rewrite sub_one_Fin.
  apply div_Fin, one_minus_nonzero, Hb.
Qed.

Lemma gl_colorDodge_at_one (base : sample) :
  gl.colorDodge base (Fin 1) = NonFinite.
Proof.
  unfold gl.colorDodge. rewrite sub_one_Fin.
  replace (1 - 1)%Qc with 0%Qc by ring. apply div_by_zero.
Qed.

Lemma gpu_colorDodge_at_one (base : sample) :
  gpu.colorDodge base (Fin 1) = NonFinite.
Proof.
  unfold gpu.colorDodge. rewrite sub_one_Fin.
  replace (1 - 1)%Qc with 0%Qc by ring. apply div_by_zero.
Qed.

Lemma quarter_not_one : Q2Qc (1 # 4) <> 1%Qc.
Proof. intros E. apply (f_equal Qcanon.this) in E. vm_compute in E. discriminate E. Qed.

(** C1. For blend other than 1 the scalar functions of the two backends
    return the same value, the quotient base / (1 - blend). *)
Theorem colorDodge_backends_agree (base blend : Qc) :
  blend <> 1%Qc ->
  gl.colorDodge (Fin base) (Fin blend) = gpu.colorDodge (Fin base) (Fin blend)
  /\ gl.colorDodge (Fin base) (Fin blend) = Fin (dodge_formula base blend)
  /\ gpu.colorDodge (Fin base) (Fin blend) = Fin (dodge_formula base blend).
Proof.
  intros Hb.
  pose proof (gl_colorDodge_finite base blend Hb) as Hgl.
  pose proof (gpu_colorDodge_finite base blend Hb) as Hgpu.
  rewrite Hgl, Hgpu. auto.
Qed.

Lemma colorDodge_backends_agree_witness :
  Q2Qc (1 # 4) <> 1%Qc
  /\ gl.colorDodge (Fin (Q2Qc (1 # 2))) (Fin (Q2Qc (1 # 4)))
     = gpu.colorDodge (Fin (Q2Qc (1 # 2))) (Fin (Q2Qc (1 # 4))).
Proof.
  split; [exact quarter_not_one|].
  exact (proj1 (colorDodge_backends_agree (Q2Qc (1 # 2)) (Q2Qc (1 # 4))
                  quarter_not_one)).
Defined.

(** C7. In each backend the vector function blends the red, green and blue
    channels with the scalar function and mixes each with the base as
    blended * opacity + base * (1 - opacity); the main fragment passes the
    foreground alpha as opacity and writes the blend-strength uniform as the
    output alpha. On finite channels with blend other than 1 the channel is
    base / (1 - blend) * opacity + base * (1 - opacity). *)
Theorem blendColorDodge_mixes_channels
  (base blend : vec3) (opacity : sample) (back front : vec4) (uBlend : sample)
  (c : channel) (qbase qblend qopacity : Qc) :
  gl.blendColorDodge base blend opacity
  = Vec3 (mix_formula (gl.colorDodge (r base) (r blend)) (r base) opacity)
         (mix_formula (gl.colorDodge (g base) (g blend)) (g base) opacity)
         (mix_formula (gl.colorDodge (b base) (b blend)) (b base) opacity)
  /\ gpu.blendColorDodge base blend opacity
     = Vec3 (mix_formula (gpu.colorDodge (r base) (r blend)) (r base) opacity)
            (mix_formula (gpu.colorDodge (g base) (g blend)) (g base) opacity)
            (mix_formula (gpu.colorDodge (b base) (b blend)) (b base) opacity)
  /\ gl.main back front uBlend
     = Vec4 (gl.blendColorDodge (rgb back) (rgb front) (a front)) uBlend
  /\ gpu.main back front uBlend
     = Vec4 (gpu.blendColorDodge (rgb back) (rgb front) (a front)) uBlend
  /\ (get_channel c base = Fin qbase -> get_channel c blend = Fin qblend ->
      opacity = Fin qopacity -> qblend <> 1%Qc ->
      get_channel c (gl.blendColorDodge base blend opacity)
      = Fin (dodge_formula qbase qblend * qopacity + qbase * (1 - qopacity))
      /\ get_channel c (gpu.blendColorDodge base blend opacity)
         = Fin (dodge_formula qbase qblend * qopacity
                + qbase * (1 - qopacity))).
Proof.
  do 4 (split; [reflexivity|]).
  intros Hbase Hblend -> Hne.
  destruct c; cbn in Hbase, Hblend |- *; rewrite Hbase, Hblend;
    rewrite gl_colorDodge_finite, gpu_colorDodge_finite by exact Hne;
    split; reflexivity.
Qed.

Lemma blendColorDodge_mixes_channels_witness :
  get_channel red
    (gl.blendColorDodge (Vec3 (Fin (Q2Qc (1 # 2))) (Fin 0) (Fin 0))
       (Vec3 (Fin (Q2Qc (1 # 4))) (Fin 0) (Fin 0)) (Fin (Q2Qc (1 # 2))))
  = Fin (dodge_formula (Q2Qc (1 # 2)) (Q2Qc (1 # 4)) * Q2Qc (1 # 2)
         + Q2Qc (1 # 2) * (1 - Q2Qc (1 # 2))).
Proof.
  pose proof
    (blendColorDodge_mixes_channels
       (Vec3 (Fin (Q2Qc (1 # 2))) (Fin 0) (Fin 0))
       (Vec3 (Fin (Q2Qc (1 # 4))) (Fin 0) (Fin 0)) (Fin (Q2Qc (1 # 2)))
       (Vec4 (Vec3 (Fin 0) (Fin 0) (Fin 0)) (Fin 1))
       (Vec4 (Vec3 (Fin 0) (Fin 0) (Fin 0)) (Fin 1)) (Fin 1)
       red (Q2Qc (1 # 2)) (Q2Qc (1 # 4)) (Q2Qc (1 # 2)))
    as (_ & _ & _ & _ & Hclosed).
  exact (proj1 (Hclosed eq_refl eq_refl eq_refl quarter_not_one)).
Defined.

(** C8. At blend = 1 the scalar function of either backend divides by zero:
    its result is non-finite for every base, and so is the channel the
    vector function and the main fragment produce from it, whatever the
    opacity; at any other blend the result is base / (1 - blend). *)
Theorem colorDodge_unguarded_division
  (base : sample) (c : channel) (vbase vblend : vec3) (opacity : sample)
  (back front : vec4) (uBlend : sample) (qbase qblend : Qc) :
  gl.colorDodge base (Fin 1) = NonFinite
  /\ gpu.colorDodge base (Fin 1) = NonFinite
  /\ (get_channel c vblend = Fin 1 ->
      get_channel c (gl.blendColorDodge vbase vblend opacity) = NonFinite
      /\ get_channel c (gpu.blendColorDodge vbase vblend opacity) = NonFinite)
  /\ (get_channel c (rgb front) = Fin 1 ->
      get_channel c (rgb (gl.main back front uBlend)) = NonFinite
      /\ get_channel c (rgb (gpu.main back front uBlend)) = NonFinite)
  /\ (qblend <> 1%Qc ->
      gl.colorDodge (Fin qbase) (Fin qblend) = Fin (dodge_formula qbase qblend)
      /\ gpu.colorDodge (Fin qbase) (Fin qblend)
         = Fin (dodge_formula qbase qblend)).
Proof.
  split; [apply gl_colorDodge_at_one|].
  split; [apply gpu_colorDodge_at_one|].
  split.
  { intros Hc. destruct c; cbn in Hc |- *;
      rewrite Hc, gl_colorDodge_at_one, gpu_colorDodge_at_one; auto. }
  split.
  { intros Hc. destruct c; cbn in Hc |- *;
      rewrite Hc, gl_colorDodge_at_one, gpu_colorDodge_at_one; auto. }
  intros Hb. split.
  - apply gl_colorDodge_finite, Hb.
  - apply gpu_colorDodge_finite, Hb.
Qed.

Lemma colorDodge_unguarded_division_witness :
  get_channel green
    (rgb (gl.main (Vec4 (Vec3 (Fin 0) (Fin 1) (Fin 0)) (Fin 1))
            (Vec4 (Vec3 (Fin 0) (Fin 1) (Fin 0)) (Fin 0)) (Fin 1)))
  = NonFinite
  /\ gpu.colorDodge (Fin (Q2Qc (1 # 2))) (Fin (Q2Qc (1 # 4)))
     = Fin (dodge_formula (Q2Qc (1 # 2)) (Q2Qc (1 # 4))).
Proof.
  pose proof
    (colorDodge_unguarded_division (Fin 0) green
       (Vec3 (Fin 0) (Fin 1) (Fin 0)) (Vec3 (Fin 0) (Fin 1) (Fin 0)) (Fin 0)
       (Vec4 (Vec3 (Fin 0) (Fin 1) (Fin 0)) (Fin 1))
       (Vec4 (Vec3 (Fin 0) (Fin 1) (Fin 0)) (Fin 0)) (Fin 1)
       (Q2Qc (1 # 2)) (Q2Qc (1 # 4))) as (_ & _ & Hv & Hm & Hq).
  split.
  - exact (proj1 (Hm eq_refl)).
  - exact (proj2 (Hq quarter_not_one)).
Defined.

End ShaderProperties.

(** ** Geometry.getSize *)

Ltac unfold_monad :=
  unfold mbind, M_bind, bind, mret, M_ret, ret, throw, this, world,
    read_buffer, assign, log in *.






(** ** The effect of each method on the world *)

Section Effects.
Context `{BoundsCalculator}.

Lemma for_each_log {A} (f : A -> Effect) (l : list A) (w : World) :
  for_each (fun x => log (f x)) l w
  = (Return tt, with_trace w (trace w ++ map f l)).
Proof.
  revert w. induction l as [|x l IH]; intros w; cbn.
  - unfold_monad. rewrite app_nil_r. now destruct w.
  - unfold_monad. rewrite IH. cbn. unfold with_trace. cbn.
    now rewrite <- app_assoc.
Qed.

Lemma emit_eq (event : string) (w : World) :
  emit event w
  = (Return tt, with_trace w (trace w ++ emit_trace event (geometry w))).
Proof.
  unfold emit, mbind, M_bind, bind, this. unfold log at 1.
  rewrite for_each_log. cbn.
  unfold with_trace, emit_trace. cbn. now rewrite <- app_assoc.
Qed.

Lemma onBufferUpdate_eq (w : World) :
  onBufferUpdate w
  = (Return tt,
     mkWorld (set_boundsDirty true (geometry w)) (buffer_heap w)
       (bounds_heap w) (trace w ++ emit_trace "update" (geometry w))).
Proof.
  unfold onBufferUpdate. unfold_monad. now rewrite emit_eq.
Qed.

Lemma for_each_listeners (ref : nat) (event : string) (ls : list Listener)
  (w : World) :
  for_each
    (fun fn =>
       match fn with
       | onBufferUpdate_listener => log handler_run;; onBufferUpdate
       | callback id => log (buffer_invoked ref event id)
       end) ls w
  = (Return tt,
     mkWorld
       match handler_count ls with
       | 0 => geometry w
       | S _ => set_boundsDirty true (geometry w)
       end
       (buffer_heap w) (bounds_heap w)
       (trace w ++ flat_map (listener_trace ref event (geometry w)) ls)).
Proof.
  revert w. induction ls as [|fn ls IH]; intros w.
  - cbn. unfold_monad. rewrite app_nil_r. now destruct w.
  - cbn [for_each]. unfold mbind, M_bind, bind at 1.
    destruct fn as [|id].
    + unfold mbind, M_bind, bind at 1. unfold log at 1.
      rewrite onBufferUpdate_eq. cbn [geometry buffer_heap bounds_heap trace].
      rewrite IH. cbn [geometry buffer_heap bounds_heap trace].
      unfold handler_count. cbn [filter]. rewrite filter_cons_True by done.
      cbn [length flat_map listener_trace].
      f_equal. f_equal.
      * now destruct (length _).
      * rewrite <- !app_assoc. cbn. done.
    + unfold log at 1. rewrite IH.
      cbn [geometry buffer_heap bounds_heap trace].
      unfold handler_count. rewrite filter_cons_False by done.
      cbn [flat_map listener_trace]. rewrite <- app_assoc. done.
Qed.

Lemma Buffer_emit_eq (ref : nat) (event : string) (w : World) :
  Buffer_emit ref event w
  = (Return tt,
     match buffer_heap w !! ref with
     | None => w
     | Some b =>
         mkWorld
           match handler_count (listeners event (buffer_events b)) with
           | 0 => geometry w
           | S _ => set_boundsDirty true (geometry w)
           end
           (buffer_heap w) (bounds_heap w)
           (trace w
            ++ flat_map (listener_trace ref event (geometry w))
                 (listeners event (buffer_events b)))
     end).
Proof.
  unfold Buffer_emit. unfold mbind, M_bind, bind, read_buffer.
  destruct (buffer_heap w !! ref) as [b|]; [|reflexivity].
  apply for_each_listeners.
Qed.

Lemma indexOf_absent (l : list nat) (x : nat) (from : Z) :
  (0 <= from)%Z -> (indexOf l x from =? -1)%Z = true <-> x ∉ l.
Proof.
  revert from. induction l as [|y l IH]; intros from Hfrom; cbn.
  - split; [intros _; apply not_elem_of_nil|done].
  - destruct (Nat.eqb_spec y x) as [->|Hne].
    + split.
      * intros E. apply Z.eqb_eq in E. lia.
      * intros Hn. exfalso. apply Hn. left.
    + rewrite IH by lia. rewrite not_elem_of_cons.
      split; [intros Hl; split; [congruence|exact Hl]|intros [_ Hl]; exact Hl].
Qed.

Lemma ensureIsBuffer_eq (b : BufferLike) (index : bool) (w : World) :
  ensureIsBuffer b index w
  = (Return (resolves_to w b),
     mkWorld (geometry w) (heap_resolved w b index) (bounds_heap w) (trace w)).
Proof. destruct b; cbn; try reflexivity. now destruct w. Qed.

Lemma ensureIsAttribute_eq (o : AttributeOption) (w : World) :
  ensureIsAttribute o w
  = (Return (attribute_resolved o (resolves_to w (option_buffer o))),
     mkWorld (geometry w) (heap_resolved w (option_buffer o) false)
       (bounds_heap w) (trace w)).
Proof.
  unfold ensureIsAttribute, mbind, M_bind, bind.
  destruct o as [d|b]; cbn [buffer option_buffer];
    rewrite ensureIsBuffer_eq; reflexivity.
Qed.

Lemma addAttribute_eq (name : string) (o : AttributeOption) (w : World) :
  addAttribute name o w
  = let ref := resolves_to w (option_buffer o) in
    let heap1 := heap_resolved w (option_buffer o) false in
    match buffers (geometry w) with
    | None =>
        (Throw TypeError,
         mkWorld (geometry w) heap1 (bounds_heap w) (trace w))
    | Some bs =>
        let absent := (indexOf bs ref 0 =? -1)%Z in
        let g2 :=
          if absent then set_buffers (Some (bs ++ [ref])) (geometry w)
          else geometry w in
        let heap2 :=
          if absent
          then alter (subscribe "change") ref
                 (alter (subscribe "update") ref heap1)
          else heap1 in
        match attributes (geometry w) with
        | None => (Throw TypeError, mkWorld g2 heap2 (bounds_heap w) (trace w))
        | Some attrs =>
            (Return tt,
             mkWorld
               (set_attributes
                  (Some (JS.set name (attribute_resolved o ref) attrs)) g2)
               heap2 (bounds_heap w) (trace w))
        end
    end.
Proof.
  unfold addAttribute. unfold mbind at 1. unfold M_bind, bind at 1.
  rewrite ensureIsAttribute_eq. unfold_monad.
  cbn [geometry buffer_heap bounds_heap trace].
  destruct (buffers (geometry w)) as [bs|]; [|reflexivity].
  replace (buffer (attribute_resolved o (resolves_to w (option_buffer o))))
    with (resolves_to w (option_buffer o)) by now destruct o.
  destruct (indexOf bs _ 0 =? -1)%Z;
    cbn; destruct (attributes (geometry w)); reflexivity.
Qed.

Lemma addIndex_eq (ib : BufferLike) (w : World) :
  addIndex ib w
  = let ref := resolves_to w ib in
    let heap1 := heap_resolved w ib true in
    match buffers (geometry w) with
    | None =>
        (Throw TypeError,
         mkWorld (set_indexBuffer (Some ref) (geometry w)) heap1
           (bounds_heap w) (trace w))
    | Some bs =>
        (Return tt,
         mkWorld
           (set_buffers (Some (bs ++ [ref]))
              (set_indexBuffer (Some ref) (geometry w)))
           heap1 (bounds_heap w) (trace w))
    end.
Proof.
  unfold addIndex. unfold mbind at 1. unfold M_bind, bind at 1.
  rewrite ensureIsBuffer_eq. unfold_monad. cbn.
  destruct (buffers (geometry w)); reflexivity.
Qed.

Lemma for_each_Buffer_destroy (bs : list nat) (w : World) :
  for_each Buffer_destroy bs w
  = (Return tt,
     mkWorld (geometry w)
       (foldl (fun heap ref => alter mark_destroyed ref heap) (buffer_heap w) bs)
       (bounds_heap w) (trace w ++ map buffer_destroy bs)).
Proof.
  revert w. induction bs as [|ref bs IH]; intros w; cbn.
  - unfold_monad. rewrite app_nil_r. now destruct w.
  - unfold Buffer_destroy, update_buffer. unfold_monad. rewrite IH. cbn.
    now rewrite <- app_assoc.
Qed.

Lemma destroy_eq (destroyBuffers : bool) (w : World) :
  destroy destroyBuffers w
  = let t := trace w ++ emit_trace "destroy" (geometry w) in
    let g := set_events [] (geometry w) in
    if destroyBuffers then
      match buffers (geometry w) with
      | None => (Throw TypeError, mkWorld g (buffer_heap w) (bounds_heap w) t)
      | Some bs =>
          (Return tt,
           mkWorld (nulled g)
             (foldl (fun heap ref => alter mark_destroyed ref heap)
                (buffer_heap w) bs)
             (bounds_heap w) (t ++ map buffer_destroy bs))
      end
    else (Return tt, mkWorld (nulled g) (buffer_heap w) (bounds_heap w) t).
Proof.
  unfold destroy. unfold mbind at 1. unfold M_bind, bind at 1.
  rewrite emit_eq. unfold removeAllListeners.
  destruct destroyBuffers.
  - unfold_monad. cbn.
    destruct (buffers (geometry w)) as [bs|]; [|reflexivity].
    rewrite for_each_Buffer_destroy. reflexivity.
  - unfold_monad. reflexivity.
Qed.

Lemma bounds_clean (w : World) :
  _boundsDirty (geometry w) = false ->
  bounds w = (Return (_bounds (geometry w)), w).
Proof. intros Hc. unfold bounds. unfold_monad. now rewrite Hc. Qed.

Lemma bounds_dirty (w : World) :
  _boundsDirty (geometry w) = true ->
  bounds w
  = let g := set_boundsDirty false (geometry w) in
    let t := trace w ++ [recomputed "aPosition"] in
    match attributes (geometry w), _bounds (geometry w) with
    | Some attrs, Some ref =>
        match bounds_heap w !! ref with
        | Some old =>
            match bounds_box "aPosition" attrs (buffer_heap w) old with
            | Some box =>
                (Return (Some ref),
                 mkWorld g (buffer_heap w) (<[ref := box]> (bounds_heap w)) t)
            | None =>
                (Throw TypeError, mkWorld g (buffer_heap w) (bounds_heap w) t)
            end
        | None => (Throw TypeError, mkWorld g (buffer_heap w) (bounds_heap w) t)
        end
    | _, _ => (Throw TypeError, mkWorld g (buffer_heap w) (bounds_heap w) t)
    end.
Proof.
  intros Hd. unfold bounds, getGeometryBounds, write_bounds. unfold_monad.
  rewrite Hd. cbn.
  destruct (attributes (geometry w)) as [attrs|]; [|reflexivity].
  destruct (_bounds (geometry w)) as [ref|]; [|reflexivity].
  destruct (bounds_heap w !! ref) as [old|]; [|reflexivity].
  destruct (bounds_box _ _ _ _); reflexivity.
Qed.

End Effects.

(** ** Subscriptions under the changes of the heap *)

Lemma listeners_on {L} (event ev : string) (fn : L) (e : Events L) :
  listeners event (on ev fn e)
  = listeners event e ++ (if String.eqb ev event then [fn] else []).
Proof.
  unfold on. induction e as [|[ev' fn'] e IH]; cbn.
  - now destruct (String.eqb ev event).
  - destruct (String.eqb ev' event); cbn; now rewrite IH.
Qed.

Lemma handler_count_app (l1 l2 : list Listener) :
  handler_count (l1 ++ l2) = handler_count l1 + handler_count l2.
Proof. unfold handler_count. now rewrite list.filter_app, length_app. Qed.

Lemma handler_count_on_callback (event ev : string) (id : nat)
  (e : Events Listener) :
  handler_count (listeners event (on ev (callback id) e))
  = handler_count (listeners event e).
Proof.
  rewrite listeners_on, handler_count_app.
  destruct (String.eqb ev event).
  - change (handler_count [callback id]) with 0. lia.
  - change (handler_count []) with 0. lia.
Qed.

Lemma heap_subscriptions_alloc (heap : list Buffer) (xs : list float)
  (index : bool) (ref : nat) (event : string) :
  heap_subscriptions (heap ++ [mkBuffer xs index [] false]) ref event
  = heap_subscriptions heap ref event.
Proof.
  unfold heap_subscriptions.
  destruct (decide (ref < length heap)) as [Hlt|Hge].
  - now rewrite lookup_app_l.
  - rewrite (lookup_ge_None_2 heap) by lia.
    rewrite lookup_app_r by lia.
    now destruct (ref - length heap) as [|n].
Qed.

Lemma heap_subscriptions_alter (f : Buffer -> Buffer) (heap : list Buffer)
  (at_ref ref : nat) (event : string) :
  (forall b,
     handler_count (listeners event (buffer_events (f b)))
     = handler_count (listeners event (buffer_events b))) ->
  heap_subscriptions (alter f at_ref heap) ref event
  = heap_subscriptions heap ref event.
Proof.
  intros Hf. unfold heap_subscriptions.
  destruct (decide (at_ref = ref)) as [->|Hne].
  - rewrite list_lookup_alter_eq. destruct (heap !! ref); cbn; [apply Hf|done].
  - now rewrite list_lookup_alter_ne.
Qed.

Lemma heap_subscriptions_alter_ne (f : Buffer -> Buffer) (heap : list Buffer)
  (at_ref ref : nat) (event : string) :
  at_ref <> ref ->
  heap_subscriptions (alter f at_ref heap) ref event
  = heap_subscriptions heap ref event.
Proof.
  intros Hne. unfold heap_subscriptions. now rewrite list_lookup_alter_ne.
Qed.

Lemma heap_subscriptions_subscribe (heap : list Buffer) (ref : nat)
  (ev event : string) :
  ref < length heap ->
  heap_subscriptions (alter (subscribe ev) ref heap) ref event
  = heap_subscriptions heap ref event + (if String.eqb ev event then 1 else 0).
Proof.
  intros Hlt. unfold heap_subscriptions. rewrite list_lookup_alter_eq.
  destruct (lookup_lt_is_Some_2 heap ref Hlt) as [b ->].
  change (handler_count
            (listeners event (on ev onBufferUpdate_listener (buffer_events b)))
          = handler_count (listeners event (buffer_events b))
            + (if String.eqb ev event then 1 else 0)).
  rewrite listeners_on, handler_count_app.
  now destruct (String.eqb ev event).
Qed.

Lemma heap_subscriptions_subscribe_le (heap : list Buffer) (at_ref ref : nat)
  (ev event : string) :
  heap_subscriptions heap ref event
  <= heap_subscriptions (alter (subscribe ev) at_ref heap) ref event.
Proof.
  destruct (decide (at_ref = ref)) as [->|Hne].
  - destruct (decide (ref < length heap)) as [Hlt|Hge].
    + rewrite heap_subscriptions_subscribe by done. lia.
    + unfold heap_subscriptions. rewrite list_lookup_alter_eq.
      rewrite (lookup_ge_None_2 heap) by lia. done.
  - now rewrite heap_subscriptions_alter_ne.
Qed.

Lemma heap_subscriptions_destroy_all (heap : list Buffer) (bs : list nat)
  (ref : nat) (event : string) :
  heap_subscriptions
    (foldl (fun heap ref => alter mark_destroyed ref heap) heap bs) ref event
  = heap_subscriptions heap ref event.
Proof.
  revert heap. induction bs as [|x bs IH]; intros heap; cbn; [done|].
  rewrite IH. now apply heap_subscriptions_alter.
Qed.

Lemma length_destroy_all (heap : list Buffer) (bs : list nat) :
  length (foldl (fun heap ref => alter mark_destroyed ref heap) heap bs)
  = length heap.
Proof.
  revert heap. induction bs as [|x bs IH]; intros heap; cbn; [done|].
  now rewrite IH, length_alter.
Qed.

(** ** What every call leaves as it is *)

Section Frames.
Context `{BoundsCalculator}.

Lemma discard_snd {A} (m : M A) (w : World) : snd (discard m w) = snd (m w).
Proof.
  unfold discard, mbind, M_bind, bind, ret.
  now destruct (m w) as [[a|e] w'].
Qed.

Lemma getAttribute_snd (id : string) (w : World) : snd (getAttribute id w) = w.
Proof.
  unfold getAttribute. unfold_monad. now destruct (attributes (geometry w)).
Qed.

Lemma getBuffer_snd (id : string) (w : World) : snd (getBuffer id w) = w.
Proof.
  unfold getBuffer, getAttribute. unfold_monad.
  destruct (attributes (geometry w)) as [attrs|]; [|done].
  now destruct (JS.read attrs id).
Qed.

Lemma getSize_snd (w : World) : snd (getSize w) = w.
Proof.
  unfold getSize. unfold_monad.
  destruct (attributes (geometry w)) as [attrs|]; [|done].
  destruct (JS.for_in_keys attrs) as [|i rest]; [done|].
  destruct (JS.get attrs i) as [attribute|]; [|done].
  now destruct (buffer_heap w !! buffer attribute).
Qed.

Lemma bounds_buffer_heap (w : World) :
  buffer_heap (snd (bounds w)) = buffer_heap w.
Proof.
  destruct (_boundsDirty (geometry w)) eqn:Hd.
  - rewrite (bounds_dirty w Hd). cbn.
    destruct (attributes (geometry w)); [|done].
    destruct (_bounds (geometry w)) as [ref|]; [|done].
    destruct (bounds_heap w !! ref); [|done].
    now destruct (bounds_box _ _ _ _).
  - now rewrite (bounds_clean w Hd).
Qed.

Lemma length_heap_resolved (w : World) (b : BufferLike) (index : bool) :
  length (buffer_heap w) <= length (heap_resolved w b index).
Proof. destruct b; cbn; rewrite ?length_app; lia. Qed.

Lemma heap_subscriptions_resolved (w : World) (b : BufferLike) (index : bool)
  (ref : nat) (event : string) :
  heap_subscriptions (heap_resolved w b index) ref event
  = subscriptions w ref event.
Proof. destruct b; cbn; [done| |]; apply heap_subscriptions_alloc. Qed.

Lemma resolves_elsewhere (w : World) (o : AttributeOption) (ref : nat) :
  ref < length (buffer_heap w) ->
  option_buffer o <> a_Buffer ref ->
  resolves_to w (option_buffer o) <> ref.
Proof.
  intros Hlt Hne. destruct (option_buffer o); cbn; [congruence|lia|lia].
Qed.

Lemma call_heap_length (c : Call) (w : World) :
  length (buffer_heap w) <= length (buffer_heap (snd (call c w))).
Proof.
  destruct c; cbn [call];
    rewrite ?discard_snd, ?getAttribute_snd, ?getBuffer_snd, ?getSize_snd,
      ?bounds_buffer_heap, ?Buffer_emit_eq; try done.
  - rewrite addAttribute_eq. cbn zeta.
    pose proof (length_heap_resolved w (option_buffer attributeOption) false).
    destruct (buffers (geometry w)) as [bs|]; [|done].
    destruct (indexOf bs _ 0 =? -1)%Z, (attributes (geometry w));
      cbn; rewrite ?length_alter; done.
  - rewrite addIndex_eq. cbn zeta.
    pose proof (length_heap_resolved w indexBuffer0 true).
    now destruct (buffers (geometry w)).
  - rewrite destroy_eq. cbn zeta.
    destruct destroyBuffers; [|done].
    destruct (buffers (geometry w)); cbn; rewrite ?length_destroy_all; done.
  - cbn. rewrite length_app. lia.
  - cbn. now rewrite length_alter.
  - cbn. now destruct (buffer_heap w !! ref).
Qed.

Lemma call_subscriptions_le (c : Call) (w : World) (ref : nat)
  (event : string) :
  subscriptions w ref event <= subscriptions (snd (call c w)) ref event.
Proof.
  unfold subscriptions.
  destruct c; cbn [call];
    rewrite ?discard_snd, ?getAttribute_snd, ?getBuffer_snd, ?getSize_snd,
      ?bounds_buffer_heap, ?Buffer_emit_eq; try done.
  - rewrite addAttribute_eq. cbn zeta.
    pose proof (heap_subscriptions_resolved w (option_buffer attributeOption)
                  false ref event) as Hr. unfold subscriptions in Hr.
    destruct (buffers (geometry w)) as [bs|]; [|cbn; lia].
    destruct (indexOf bs _ 0 =? -1)%Z, (attributes (geometry w)); cbn;
      try lia;
      (etransitivity; [|apply heap_subscriptions_subscribe_le]);
      (etransitivity; [|apply heap_subscriptions_subscribe_le]); lia.
  - rewrite addIndex_eq. cbn zeta.
    pose proof (heap_subscriptions_resolved w indexBuffer0 true ref event) as Hr.
    unfold subscriptions in Hr.
    destruct (buffers (geometry w)); cbn; lia.
  - rewrite destroy_eq. cbn zeta.
    destruct destroyBuffers; [|done].
    destruct (buffers (geometry w)); cbn;
      rewrite ?heap_subscriptions_destroy_all; done.
  - cbn. now rewrite heap_subscriptions_alloc.
  - cbn. rewrite heap_subscriptions_alter; [done|].
    intros b. apply handler_count_on_callback.
  - cbn. now destruct (buffer_heap w !! ref0).
Qed.

Lemma call_subscriptions_eq (c : Call) (w : World) (ref : nat)
  (event : string) :
  ref < length (buffer_heap w) ->
  ~ adds_attribute_on ref c ->
  subscriptions (snd (call c w)) ref event = subscriptions w ref event.
Proof.
  intros Hlt Hc. unfold subscriptions.
  destruct c; cbn [call];
    rewrite ?discard_snd, ?getAttribute_snd, ?getBuffer_snd, ?getSize_snd,
      ?bounds_buffer_heap, ?Buffer_emit_eq; try done.
  - rewrite addAttribute_eq. cbn zeta.
    pose proof (heap_subscriptions_resolved w (option_buffer attributeOption)
                  false ref event) as Hr. unfold subscriptions in Hr.
    pose proof (resolves_elsewhere w attributeOption ref Hlt Hc) as Hne.
    destruct (buffers (geometry w)) as [bs|]; [|done].
    destruct (indexOf bs _ 0 =? -1)%Z, (attributes (geometry w)); cbn;
      rewrite ?heap_subscriptions_alter_ne by done; done.
  - rewrite addIndex_eq. cbn zeta.
    pose proof (heap_subscriptions_resolved w indexBuffer0 true ref event) as Hr.
    unfold subscriptions in Hr.
    now destruct (buffers (geometry w)).
  - rewrite destroy_eq. cbn zeta.
    destruct destroyBuffers; [|done].
    destruct (buffers (geometry w)); cbn;
      rewrite ?heap_subscriptions_destroy_all; done.
  - cbn. now rewrite heap_subscriptions_alloc.
  - cbn. rewrite heap_subscriptions_alter; [done|].
    intros b. apply handler_count_on_callback.
  - cbn. now destruct (buffer_heap w !! ref0).
Qed.

Lemma run_subscriptions_le (cs : list Call) (w : World) (ref : nat)
  (event : string) :
  subscriptions w ref event <= subscriptions (run cs w) ref event.
Proof.
  revert w. induction cs as [|c cs IH]; intros w; cbn; [done|].
  etransitivity; [apply (call_subscriptions_le c)|apply IH].
Qed.

Lemma run_subscriptions_eq (cs : list Call) (w : World) (ref : nat)
  (event : string) :
  ref < length (buffer_heap w) ->
  Forall (fun c => ~ adds_attribute_on ref c) cs ->
  subscriptions (run cs w) ref event = subscriptions w ref event.
Proof.
  revert w. induction cs as [|c cs IH]; intros w Hlt Hcs; cbn; [done|].
  inversion Hcs as [|? ? Hc Hrest]; subst.
  rewrite IH; [now apply call_subscriptions_eq| |done].
  pose proof (call_heap_length c w). lia.
Qed.

(** An invariant of the steps of the constructor holds of the Geometry it
    makes. *)
Lemma for_each_invariant {A} (P : World -> Prop) (f : A -> M unit)
  (l : list A) (w : World) :
  (forall x w, x ∈ l -> P w -> P (snd (f x w))) ->
  P w -> P (snd (for_each f l w)).
Proof.
  revert w. induction l as [|x l IH]; intros w Hf Hw; cbn; [done|].
  unfold mbind, M_bind, bind.
  pose proof (Hf x w (list_elem_of_here x l) Hw) as Hx.
  destruct (f x w) as [[[]|e] w1]; cbn in Hx |- *; [|done].
  apply IH; [|done]. intros y w' Hy. apply Hf. now right.
Qed.

Lemma new_Geometry_invariant (P : World -> Prop)
  (options : GeometryDescriptor) (heap : list Buffer) :
  P (initial_world heap) ->
  (forall attrs name o w,
     d_attributes options = Some attrs -> JS.get attrs name = Some o ->
     P w -> P (snd (addAttribute name o w))) ->
  (forall ib w,
     d_indexBuffer options = Some ib -> P w -> P (snd (addIndex ib w))) ->
  (forall v w, P w -> P (with_geometry w (set_instanceCount v (geometry w)))) ->
  (forall v w, P w -> P (with_geometry w (set_topology v (geometry w)))) ->
  P (snd (new_Geometry options heap)).
Proof.
  intros H0 Hattr Hindex Hcount Htopology. unfold new_Geometry.
  fold (initial_world heap).
  set (loop :=
         match d_attributes options with
         | Some attrs =>
             for_each
               (fun i =>
                  match JS.get attrs i with
                  | Some o => addAttribute i o
                  | None => ret tt
                  end) (JS.for_in_keys attrs)
         | None => ret tt
         end).
  assert (P (snd (loop (initial_world heap)))) as Hloop.
  { subst loop. destruct (d_attributes options) as [attrs|] eqn:Ha; [|done].
    apply for_each_invariant; [|done].
    intros i w _ Hw. destruct (JS.get attrs i) as [o|] eqn:Hg; [|done].
    now apply (Hattr attrs). }
  unfold mbind, M_bind, bind.
  destruct (loop (initial_world heap)) as [[[]|e] w1]; cbn in Hloop |- *;
    [|done].
  specialize (Hcount (JS.nullish (d_instanceCount options) 1%float) w1 Hloop).
  unfold with_geometry in Hcount.
  set (w2 := mkWorld _ _ _ _) in *.
  assert (P (snd (match d_indexBuffer options with
                  | Some ib => addIndex ib
                  | None => ret tt
                  end w2))) as Hib.
  { destruct (d_indexBuffer options) as [ib|] eqn:Hi; [|done].
    now apply Hindex. }
  destruct (match d_indexBuffer options with
            | Some ib => addIndex ib
            | None => ret tt
            end w2) as [[[]|e] w3]; cbn in Hib |- *; [|done].
  apply (Htopology _ w3 Hib).
Qed.

End Frames.

Lemma bounds_geometry `{BoundsCalculator} (w : World) :
  geometry (snd (bounds w)) = geometry w
  \/ geometry (snd (bounds w)) = set_boundsDirty false (geometry w).
Proof.
  destruct (_boundsDirty (geometry w)) eqn:Hd.
  - right. rewrite (bounds_dirty w Hd). cbn zeta.
    destruct (attributes (geometry w)); [|done].
    destruct (_bounds (geometry w)) as [ref|]; [|done].
    destruct (bounds_heap w !! ref); [|done].
    now destruct (bounds_box _ _ _ _).
  - left. now rewrite (bounds_clean w Hd).
Qed.

Lemma call_keeps_collections `{BoundsCalculator} (c : Call) (w : World) :
  keeps_collections c ->
  attributes (geometry (snd (call c w))) = attributes (geometry w)
  /\ buffers (geometry (snd (call c w))) = buffers (geometry w)
  /\ indexBuffer (geometry (snd (call c w))) = indexBuffer (geometry w)
  /\ _bounds (geometry (snd (call c w))) = _bounds (geometry w).
Proof.
  destruct c; cbn [call keeps_collections]; intros Hc; try done;
    rewrite ?discard_snd, ?getAttribute_snd, ?getBuffer_snd, ?getSize_snd;
    try done.
  - now destruct (bounds_geometry w) as [-> | ->].
  - rewrite Buffer_emit_eq. cbn [snd].
    destruct (buffer_heap w !! ref) as [b|]; [|done].
    now destruct (handler_count _).
Qed.

Lemma call_subscriptions_keep `{BoundsCalculator} (c : Call) (w : World)
  (ref : nat) (event : string) :
  adds_no_attribute c ->
  subscriptions (snd (call c w)) ref event = subscriptions w ref event.
Proof.
  intros Hc. unfold subscriptions.
  destruct c; cbn [call adds_no_attribute] in Hc |- *; try done;
    rewrite ?discard_snd, ?getAttribute_snd, ?getBuffer_snd, ?getSize_snd,
      ?bounds_buffer_heap, ?Buffer_emit_eq; try done.
  - rewrite addIndex_eq. cbn zeta.
    pose proof (heap_subscriptions_resolved w indexBuffer0 true ref event) as Hr.
    unfold subscriptions in Hr.
    now destruct (buffers (geometry w)).
  - rewrite destroy_eq. cbn zeta.
    destruct destroyBuffers; [|done].
    destruct (buffers (geometry w)); cbn;
      rewrite ?heap_subscriptions_destroy_all; done.
  - cbn. now rewrite heap_subscriptions_alloc.
  - cbn. rewrite heap_subscriptions_alter; [done|].
    intros b. apply handler_count_on_callback.
  - cbn. now destruct (buffer_heap w !! ref0).
Qed.

Lemma lookup_alter_data (f : Buffer -> Buffer) (heap : list Buffer)
  (i ref : nat) (buf : Buffer) :
  (forall b, data (f b) = data b) ->
  heap !! ref = Some buf ->
  exists buf', alter f i heap !! ref = Some buf' /\ data buf' = data buf.
Proof.
  intros Hf Hl. destruct (decide (i = ref)) as [->|Hne].
  - rewrite list_lookup_alter_eq, Hl. cbn. eauto.
  - rewrite list_lookup_alter_ne by done. eauto.
Qed.

Lemma lookup_resolved `{BoundsCalculator} (w : World) (b : BufferLike)
  (index : bool) (ref : nat) (buf : Buffer) :
  buffer_heap w !! ref = Some buf ->
  heap_resolved w b index !! ref = Some buf.
Proof.
  intros Hl. destruct b; cbn; [done| |]; now apply lookup_app_l_Some.
Qed.

Lemma lookup_destroy_all (heap : list Buffer) (bs : list nat) (ref : nat)
  (buf : Buffer) :
  heap !! ref = Some buf ->
  exists buf',
    foldl (fun heap ref => alter mark_destroyed ref heap) heap bs !! ref
    = Some buf'
    /\ data buf' = data buf.
Proof.
  revert heap buf. induction bs as [|x bs IH]; intros heap buf Hl; cbn;
    [eauto|].
  destruct (lookup_alter_data mark_destroyed heap x ref buf) as (b1 & H1 & E1);
    [done|done|].
  destruct (IH _ _ H1) as (b2 & H2 & E2). exists b2. split; [done|congruence].
Qed.

Lemma call_heap_data `{BoundsCalculator} (c : Call) (w : World) (ref : nat)
  (buf : Buffer) :
  buffer_heap w !! ref = Some buf ->
  exists buf',
    buffer_heap (snd (call c w)) !! ref = Some buf' /\ data buf' = data buf.
Proof.
  intros Hl.
  destruct c; cbn [call];
    rewrite ?discard_snd, ?getAttribute_snd, ?getBuffer_snd, ?getSize_snd,
      ?bounds_buffer_heap, ?Buffer_emit_eq; eauto.
  - rewrite addAttribute_eq. cbn zeta.
    pose proof (lookup_resolved w (option_buffer attributeOption) false ref buf
                  Hl) as Hl1.
    assert (exists buf',
              alter (subscribe "change")
                (resolves_to w (option_buffer attributeOption))
                (alter (subscribe "update")
                   (resolves_to w (option_buffer attributeOption))
                   (heap_resolved w (option_buffer attributeOption) false))
              !! ref = Some buf'
              /\ data buf' = data buf) as Hl2.
    { destruct (lookup_alter_data (subscribe "update")
                  (heap_resolved w (option_buffer attributeOption) false)
                  (resolves_to w (option_buffer attributeOption)) ref buf)
        as (b1 & H1 & E1); [done|exact Hl1|].
      destruct (lookup_alter_data (subscribe "change")
                  (alter (subscribe "update")
                     (resolves_to w (option_buffer attributeOption))
                     (heap_resolved w (option_buffer attributeOption) false))
                  (resolves_to w (option_buffer attributeOption)) ref b1)
        as (b2 & H2 & E2); [done|exact H1|].
      exists b2. split; [done|congruence]. }
    destruct (buffers (geometry w)) as [bs|]; [|eauto].
    destruct (indexOf bs _ 0 =? -1)%Z, (attributes (geometry w)); cbn; eauto.
  - rewrite addIndex_eq. cbn zeta.
    pose proof (lookup_resolved w indexBuffer0 true ref buf Hl) as Hl1.
    destruct (buffers (geometry w)); cbn; eauto.
  - rewrite destroy_eq. cbn zeta.
    destruct destroyBuffers; [|eauto].
    destruct (buffers (geometry w)); cbn; [|eauto].
    now apply lookup_destroy_all.
  - cbn. exists buf. split; [now apply lookup_app_l_Some|done].
  - cbn. now apply lookup_alter_data.
  - cbn [snd]. destruct (buffer_heap w !! ref0); cbn; eauto.
Qed.

(** A Buffer that is in [buffers] stays there, and nothing that is called
    changes how often the Geometry is subscribed to it. *)
Lemma call_held `{BoundsCalculator} (c : Call) (w : World) (ref : nat)
  (event : string) :
  held ref w ->
  held ref (snd (call c w))
  /\ subscriptions (snd (call c w)) ref event = subscriptions w ref event.
Proof.
  intros Hw.
  assert (keeps_collections c -> held ref (snd (call c w))) as Hkeep.
  { intros Hk. destruct (call_keeps_collections c w Hk) as (_ & Eb & _).
    unfold held. now rewrite Eb. }
  destruct c;
    try (split; [apply Hkeep; exact I|now apply call_subscriptions_keep]);
    clear Hkeep; cbn [call].
  - rewrite addAttribute_eq. cbn zeta. unfold subscriptions, held.
    pose proof (heap_subscriptions_resolved w (option_buffer attributeOption)
                  false ref event) as Hr. unfold subscriptions in Hr.
    destruct (buffers (geometry w)) as [bs|] eqn:Hbs.
    + specialize (Hw bs Hbs).
      destruct (indexOf bs _ 0 =? -1)%Z eqn:Hi.
      * apply indexOf_absent in Hi; [|done].
        assert (resolves_to w (option_buffer attributeOption) <> ref) as Hne
          by (intros E; now rewrite E in Hi).
        destruct (attributes (geometry w)); cbn;
          rewrite !heap_subscriptions_alter_ne by done;
          (split; [|done]); intros bs' [= <-]; apply elem_of_app; now left.
      * destruct (attributes (geometry w)); cbn; rewrite Hbs;
          (split; [|done]); now intros bs' [= <-].
    + cbn. rewrite Hbs. split; [done|exact Hr].
  - split; [|now apply (call_subscriptions_keep (call_addIndex indexBuffer0))].
    rewrite addIndex_eq. cbn zeta. unfold held.
    destruct (buffers (geometry w)) as [bs|] eqn:Hbs; cbn.
    + intros bs' [= <-]. apply elem_of_app. left. now apply Hw.
    + now rewrite Hbs.
  - split;
      [|now apply (call_subscriptions_keep (call_destroy destroyBuffers))].
    rewrite destroy_eq. cbn zeta. unfold held.
    destruct destroyBuffers; [|done].
    now destruct (buffers (geometry w)) as [bs|] eqn:Hbs; cbn; rewrite ?Hbs.
Qed.

Lemma run_held `{BoundsCalculator} (cs : list Call) (w : World) (ref : nat)
  (event : string) :
  held ref w ->
  held ref (run cs w)
  /\ subscriptions (run cs w) ref event = subscriptions w ref event.
Proof.
  revert w. induction cs as [|c cs IH]; intros w Hw; cbn [run]; [done|].
  destruct (call_held c w ref event Hw) as [Hw' E].
  destruct (IH _ Hw') as [Hw'' E']. split; [done|congruence].
Qed.

Lemma addAttribute_heap_data `{BoundsCalculator} (w : World) (name : string)
  (o : AttributeOption) (ref : nat) (buf : Buffer) :
  heap_resolved w (option_buffer o) false !! ref = Some buf ->
  exists buf',
    buffer_heap (snd (addAttribute name o w)) !! ref = Some buf'
    /\ data buf' = data buf.
Proof.
  intros Hl. rewrite addAttribute_eq. cbn zeta.
  destruct (lookup_alter_data (subscribe "update")
              (heap_resolved w (option_buffer o) false)
              (resolves_to w (option_buffer o)) ref buf)
    as (b1 & H1 & E1); [done|exact Hl|].
  destruct (lookup_alter_data (subscribe "change")
              (alter (subscribe "update") (resolves_to w (option_buffer o))
                 (heap_resolved w (option_buffer o) false))
              (resolves_to w (option_buffer o)) ref b1)
    as (b2 & H2 & E2); [done|exact H1|].
  assert (data b2 = data buf) as E by congruence.
  destruct (buffers (geometry w)) as [bs|]; [|eauto].
  destruct (indexOf bs _ 0 =? -1)%Z, (attributes (geometry w)); cbn; eauto.
Qed.

Lemma addAttribute_resolved_from `{BoundsCalculator} (heap : list Buffer)
  (w : World) (name : string) (o : AttributeOption) :
  length heap <= length (buffer_heap w) ->
  resolved_from heap (snd (addAttribute name o w)) (option_buffer o)
    (resolves_to w (option_buffer o)).
Proof.
  intros Hle. unfold resolved_from.
  destruct (option_buffer o) as [r|xs|xs] eqn:Ho; [done| |];
    (split; [exact Hle|]);
    apply (addAttribute_heap_data w name o (length (buffer_heap w))
             (mkBuffer xs false [] false));
    rewrite Ho; cbn; now apply list_lookup_middle.
Qed.

Lemma call_resolved_from `{BoundsCalculator} (heap : list Buffer) (c : Call)
  (w : World) (b : BufferLike) (ref : nat) :
  resolved_from heap w b ref -> resolved_from heap (snd (call c w)) b ref.
Proof.
  destruct b as [r|xs|xs]; cbn; [done| |];
    intros [Hle (buf & Hl & Hd)]; (split; [exact Hle|]);
    destruct (call_heap_data c w ref buf Hl) as (buf' & Hl' & Hd');
    exists buf'; (split; [exact Hl'|congruence]).
Qed.

Lemma run_resolved_from `{BoundsCalculator} (heap : list Buffer)
  (cs : list Call) (w : World) (b : BufferLike) (ref : nat) :
  resolved_from heap w b ref -> resolved_from heap (run cs w) b ref.
Proof.
  revert w. induction cs as [|c cs IH]; intros w Hw; cbn [run]; [done|].
  now apply IH, call_resolved_from.
Qed.

(** ** Geometry.addIndex and the notifications of buffers *)

Lemma callbacks_only (ref : nat) (event : string) (g : Geometry)
  (ls : list Listener) :
  handler_count ls = 0 ->
  Forall (fun e => exists id, e = buffer_invoked ref event id)
    (flat_map (listener_trace ref event g) ls).
Proof.
  induction ls as [|fn ls IH]; intros Hc; cbn; [constructor|].
  destruct fn as [|id].
  - unfold handler_count in Hc. rewrite filter_cons_True in Hc by done.
    discriminate Hc.
  - unfold handler_count in Hc. rewrite filter_cons_False in Hc by done.
    constructor; [now exists id|]. now apply IH.
Qed.

Lemma unsubscribed_unheard `{BoundsCalculator} (w : World) (ref : nat)
  (event : string) :
  subscriptions w ref event = 0 -> unheard w ref event.
Proof.
  unfold subscriptions, heap_subscriptions, unheard. intros Hs.
  rewrite Buffer_emit_eq. cbn [snd].
  destruct (buffer_heap w !! ref) as [b|].
  - rewrite Hs. cbn [geometry trace]. split; [done|].
    eexists. split; [reflexivity|]. now apply callbacks_only.
  - split; [done|]. exists []. now rewrite app_nil_r.
Qed.

Lemma occurrences_app (ref x : nat) (bs : list nat) :
  length (filter (fun y => y = ref) (bs ++ [x]))
  = length (filter (fun y => y = ref) bs) + (if decide (x = ref) then 1 else 0).
Proof.
  rewrite list.filter_app, length_app. f_equal.
  destruct (decide (x = ref)) as [E|E].
  - now rewrite filter_cons_True.
  - now rewrite filter_cons_False.
Qed.

(** C10. [addIndex] registers no listener: the subscriptions on every
    buffer are what they were. A buffer the Geometry has no subscription
    on, handed to [addIndex] and never to [addAttribute], is not heard,
    whatever is called in between; so is a buffer that exists before the
    Geometry and that no attribute of the descriptor or later call names.
    [addIndex] appends the buffer it resolves to, also when [buffers] holds
    it already. *)
Theorem addIndex_never_subscribes `{BoundsCalculator}
  (w : World) (ib : BufferLike) (ref : nat) (event : string)
  (calls : list Call) (options : GeometryDescriptor) (heap : list Buffer) :
  subscriptions (snd (addIndex ib w)) ref event = subscriptions w ref event
  /\ (resolves_to w ib = ref -> well_formed w ib ->
      subscriptions w ref event = 0 ->
      Forall (fun c => ~ adds_attribute_on ref c) calls ->
      unheard (run (call_addIndex ib :: calls) w) ref event)
  /\ (ref < length heap -> heap_subscriptions heap ref event = 0 ->
      (forall attrs name o,
         d_attributes options = Some attrs -> JS.get attrs name = Some o ->
         option_buffer o <> a_Buffer ref) ->
      Forall (fun c => ~ adds_attribute_on ref c) calls ->
      unheard (run calls (snd (new_Geometry options heap))) ref event)
  /\ (forall bs,
        buffers (geometry w) = Some bs ->
        buffers (geometry (snd (addIndex ib w)))
        = Some (bs ++ [resolves_to w ib])
        /\ occurrences (resolves_to w ib) (snd (addIndex ib w))
           = S (occurrences (resolves_to w ib) w)).
Proof.
  assert (forall r, subscriptions (snd (addIndex ib w)) r event
                    = subscriptions w r event) as Hsame.
  { intros r. rewrite addIndex_eq. cbn zeta. unfold subscriptions at 1.
    destruct (buffers (geometry w)); cbn [snd buffer_heap];
      apply heap_subscriptions_resolved. }
  split; [apply Hsame|]. split; [|split].
  - intros Hr Hwf Hs Hcalls. apply unsubscribed_unheard.
    cbn [run call]. rewrite run_subscriptions_eq; [now rewrite Hsame| |done].
    rewrite addIndex_eq. cbn zeta.
    assert (ref < length (heap_resolved w ib true)) as Hlt.
    { subst ref. destruct ib; cbn in Hwf |- *; rewrite ?length_app; cbn; lia. }
    now destruct (buffers (geometry w)).
  - intros Hlt Hs Hattrs Hcalls. apply unsubscribed_unheard.
    assert (ref < length (buffer_heap (snd (new_Geometry options heap)))
            /\ subscriptions (snd (new_Geometry options heap)) ref event = 0)
      as [Hlt' Hs'].
    { apply (new_Geometry_invariant
               (fun w => ref < length (buffer_heap w)
                         /\ subscriptions w ref event = 0)).
      - done.
      - intros attrs name o w0 Ha Hg [Hl H0]. split.
        + pose proof (call_heap_length (call_addAttribute name o) w0). cbn in *.
          lia.
        + rewrite <- H0.
          apply (call_subscriptions_eq (call_addAttribute name o)); [done|].
          cbn. now apply (Hattrs attrs name).
      - intros ib0 w0 _ [Hl H0]. split.
        + pose proof (call_heap_length (call_addIndex ib0) w0). cbn in *. lia.
        + rewrite <- H0.
          now apply (call_subscriptions_eq (call_addIndex ib0)).
      - done.
      - done. }
    now rewrite run_subscriptions_eq.
  - intros bs Hbs. rewrite addIndex_eq. cbn zeta. unfold occurrences.
    rewrite Hbs. cbn. split; [done|].
    rewrite occurrences_app. rewrite decide_True by done. lia.
Qed.

Lemma addIndex_never_subscribes_witness :
  unheard
    (run [call_addIndex (a_number_array [0; 1; 2; 0; 2; 3]%float); call_bounds]
       quad_world)
    1 "update".
Proof.
  refine (proj1 (proj2 (addIndex_never_subscribes quad_world
                          (a_number_array [0; 1; 2; 0; 2; 3]%float) 1 "update"
                          [call_bounds]
                          (mkDescriptor None None None None None) []))
            _ _ _ _).
  - reflexivity.
  - exact I.
  - reflexivity.
  - constructor; [|constructor]. intros [].
Defined.

(** ** The bounds cache *)

Lemma occurrences_zero (ref : nat) (bs : list nat) :
  length (filter (fun y => y = ref) bs) = 0 <-> ref ∉ bs.
Proof.
  induction bs as [|x bs IH].
  - split; [intros _; apply not_elem_of_nil|done].
  - rewrite not_elem_of_cons. destruct (decide (x = ref)) as [->|Hne].
    + rewrite filter_cons_True by done. cbn. split; [lia|intros [? _]; done].
    + rewrite filter_cons_False by done. rewrite IH.
      split; [intros ?; split; [congruence|done]|intros [_ ?]; done].
Qed.

Lemma resolved_in_heap `{BoundsCalculator} (w : World) (b : BufferLike)
  (index : bool) :
  well_formed w b -> resolves_to w b < length (heap_resolved w b index).
Proof. destruct b; cbn; rewrite ?length_app; cbn; lia. Qed.

Lemma addAttribute_subscribes `{BoundsCalculator} (w : World) (name : string)
  (o : AttributeOption) (event : string) :
  live w -> well_formed w (option_buffer o) ->
  occurrences (resolves_to w (option_buffer o)) w = 0 ->
  event = "update" \/ event = "change" ->
  0 < subscriptions (snd (addAttribute name o w))
        (resolves_to w (option_buffer o)) event.
Proof.
  intros [[attrs Ha] [bs Hbs]] Hwf Hocc Hev.
  unfold occurrences in Hocc. rewrite Hbs in Hocc.
  apply occurrences_zero in Hocc.
  rewrite addAttribute_eq. cbn zeta. rewrite Hbs, Ha.
  rewrite (proj2 (indexOf_absent bs _ 0 (Z.le_refl 0)) Hocc).
  unfold subscriptions. cbn [snd buffer_heap].
  pose proof (resolved_in_heap w (option_buffer o) false Hwf) as Hlt.
  rewrite heap_subscriptions_subscribe by now rewrite length_alter.
  rewrite heap_subscriptions_subscribe by done.
  destruct Hev as [-> | ->]; cbn; lia.
Qed.

Lemma subscribed_heard `{BoundsCalculator} (w : World) (ref : nat)
  (event : string) :
  0 < subscriptions w ref event ->
  _boundsDirty (geometry (snd (Buffer_emit ref event w))) = true
  /\ exists added,
      trace (snd (Buffer_emit ref event w)) = trace w ++ added
      /\ handler_run ∈ added /\ emitted "update" ∈ added.
Proof.
  unfold subscriptions, heap_subscriptions. intros Hs.
  rewrite Buffer_emit_eq. cbn [snd].
  destruct (buffer_heap w !! ref) as [b|]; [|lia].
  destruct (handler_count (listeners event (buffer_events b))) as [|n] eqn:Hn;
    [lia|]. cbn [geometry trace]. split; [done|].
  eexists. split; [reflexivity|].
  assert (onBufferUpdate_listener ∈ listeners event (buffer_events b)) as Hin.
  { unfold handler_count in Hn.
    destruct (filter (fun fn => fn = onBufferUpdate_listener)
                (listeners event (buffer_events b))) as [|fn rest] eqn:Hf;
      [discriminate Hn|].
    assert (fn ∈ filter (fun fn => fn = onBufferUpdate_listener)
                   (listeners event (buffer_events b))) as Hfn
      by (rewrite Hf; left).
    apply list_elem_of_filter in Hfn as [-> Hfn]. exact Hfn. }
  split; apply list_elem_of_In, in_flat_map;
    exists onBufferUpdate_listener;
    (split; [now apply list_elem_of_In|]); cbn; auto.
Qed.

(** C2 (amended). The flag is set when the constructor returns. A read of
    [bounds] while it is set calls the calculator once and clears it; what
    the read returns, if it returns, is the cache object. A read while it is
    clear returns the cache object and changes nothing. A notification
    [update] or [change] from a buffer that [addAttribute] appended to
    [buffers] sets the flag, whatever was called since. [addAttribute]
    subscribes to no buffer that [buffers] holds already: it leaves
    [buffers] and every registration as they were, and so does whatever is
    called afterwards for that buffer, whose notifications, if the Geometry
    was not subscribed to it before, do not reach the Geometry. So it is
    for a buffer that [addIndex] put into [buffers] before it is made the
    buffer of an attribute. *)
Theorem bounds_cache_state_machine `{BoundsCalculator}
  (options : GeometryDescriptor) (heap : list Buffer) (w : World)
  (name : string) (o : AttributeOption) (calls : list Call) (event : string)
  (ib : BufferLike) :
  _boundsDirty (geometry (snd (new_Geometry options heap))) = true
  /\ (_boundsDirty (geometry w) = true ->
      trace (snd (bounds w)) = trace w ++ [recomputed "aPosition"]
      /\ _boundsDirty (geometry (snd (bounds w))) = false
      /\ _bounds (geometry (snd (bounds w))) = _bounds (geometry w)
      /\ (fst (bounds w) = Return (_bounds (geometry w))
          \/ fst (bounds w) = Throw TypeError))
  /\ (_boundsDirty (geometry w) = false ->
      bounds w = (Return (_bounds (geometry w)), w))
  /\ (live w -> well_formed w (option_buffer o) ->
      occurrences (resolves_to w (option_buffer o)) w = 0 ->
      event = "update" \/ event = "change" ->
      _boundsDirty
        (geometry
           (snd (Buffer_emit (resolves_to w (option_buffer o)) event
                   (run (call_addAttribute name o :: calls) w))))
      = true)
  /\ (0 < occurrences (resolves_to w (option_buffer o)) w ->
      let ref := resolves_to w (option_buffer o) in
      let w' := run (call_addAttribute name o :: calls) w in
      buffers (geometry (snd (addAttribute name o w))) = buffers (geometry w)
      /\ (forall r ev,
            subscriptions (snd (addAttribute name o w)) r ev
            = subscriptions w r ev)
      /\ (forall ev, subscriptions w' ref ev = subscriptions w ref ev)
      /\ (subscriptions w ref event = 0 -> unheard w' ref event))
  /\ (is_Some (buffers (geometry w)) ->
      option_buffer o = a_Buffer (resolves_to w ib) ->
      let ref := resolves_to w ib in
      let w' := run (call_addIndex ib :: call_addAttribute name o :: calls) w in
      (forall ev, subscriptions w' ref ev = subscriptions w ref ev)
      /\ (subscriptions w ref event = 0 -> unheard w' ref event)).
Proof.
  split; [|split; [|split; [|split; [|split]]]].
  - apply (new_Geometry_invariant
             (fun w => _boundsDirty (geometry w) = true)); try done.
    + intros attrs n o' w0 _ _ Hw0. rewrite addAttribute_eq. cbn zeta.
      destruct (buffers (geometry w0)) as [bs|]; [|done].
      now destruct (indexOf bs _ 0 =? -1)%Z, (attributes (geometry w0)).
    + intros ib' w0 _ Hw0. rewrite addIndex_eq. cbn zeta.
      now destruct (buffers (geometry w0)).
  - intros Hd. rewrite (bounds_dirty w Hd). cbn zeta.
    destruct (attributes (geometry w)) as [attrs|]; [|cbn; auto].
    destruct (_bounds (geometry w)) as [ref|] eqn:Hb; [|cbn; auto].
    destruct (bounds_heap w !! ref) as [old|]; [|cbn; auto].
    destruct (bounds_box _ _ _ _); cbn; auto.
  - apply bounds_clean.
  - intros Hlive Hwf Hocc Hev. apply subscribed_heard.
    cbn [run call].
    eapply Nat.lt_le_trans; [|apply run_subscriptions_le].
    now apply addAttribute_subscribes.
  - intros Hocc ref w'.
    assert (held ref w) as Hheld.
    { unfold occurrences in Hocc. intros bs Hbs. rewrite Hbs in Hocc.
      destruct (decide (ref ∈ bs)) as [|Hn]; [done|].
      apply occurrences_zero in Hn. subst ref. lia. }
    assert (forall ev, subscriptions w' ref ev = subscriptions w ref ev) as Hsame.
    { intros ev. subst w'.
      now destruct (run_held (call_addAttribute name o :: calls) w ref ev Hheld). }
    split; [|split; [|split]].
    + destruct (buffers (geometry w)) as [bs|] eqn:Hbs;
        [|unfold occurrences in Hocc; rewrite Hbs in Hocc; lia].
      rewrite addAttribute_eq. cbn zeta. rewrite Hbs.
      assert ((indexOf bs ref 0 =? -1)%Z = false) as Hi.
      { destruct (indexOf bs ref 0 =? -1)%Z eqn:Hi; [|done].
        apply indexOf_absent in Hi; [|done]. now specialize (Hheld bs Hbs). }
      subst ref. rewrite Hi. now destruct (attributes (geometry w)).
    + intros r ev.
      destruct (buffers (geometry w)) as [bs|] eqn:Hbs;
        [|unfold occurrences in Hocc; rewrite Hbs in Hocc; lia].
      rewrite addAttribute_eq. cbn zeta. rewrite Hbs.
      assert ((indexOf bs ref 0 =? -1)%Z = false) as Hi.
      { destruct (indexOf bs ref 0 =? -1)%Z eqn:Hi; [|done].
        apply indexOf_absent in Hi; [|done]. now specialize (Hheld bs Hbs). }
      subst ref. rewrite Hi. unfold subscriptions at 1.
      destruct (attributes (geometry w)); cbn [snd buffer_heap];
        apply heap_subscriptions_resolved.
    + exact Hsame.
    + intros Hs. apply unsubscribed_unheard. now rewrite Hsame.
  - intros [bs Hbs] Ho ref w'.
    assert (held ref (snd (addIndex ib w))) as Hheld.
    { rewrite addIndex_eq. cbn zeta. rewrite Hbs. intros bs' [= <-].
      apply elem_of_app. right. left. }
    assert (forall ev, subscriptions w' ref ev = subscriptions w ref ev) as Hsame.
    { intros ev. subst w'.
      change (run (call_addIndex ib :: call_addAttribute name o :: calls) w)
        with (run (call_addAttribute name o :: calls) (snd (addIndex ib w))).
      destruct (run_held (call_addAttribute name o :: calls)
                  (snd (addIndex ib w)) ref ev Hheld) as [_ ->].
      now apply (call_subscriptions_keep (call_addIndex ib)). }
    split; [exact Hsame|].
    intros Hs. apply unsubscribed_unheard. now rewrite Hsame.
Qed.

Lemma bounds_cache_state_machine_witness :
  (trace (snd (bounds quad_world)) = trace quad_world ++ [recomputed "aPosition"]
   /\ _boundsDirty (geometry (snd (bounds quad_world))) = false)
  /\ bounds (snd (bounds quad_world))
     = (Return (_bounds (geometry (snd (bounds quad_world)))),
        snd (bounds quad_world))
  /\ _boundsDirty
       (geometry
          (snd (Buffer_emit 1 "change"
                  (run [call_addAttribute "aUv" (bare (a_TypedArray quad));
                        call_bounds] quad_world))))
     = true
  /\ unheard
       (run [call_addAttribute "aPosition" (bare (a_Buffer 0)); call_bounds]
          index_first_world)
       0 "update"
  /\ unheard
       (run [call_addIndex (a_Buffer 0);
             call_addAttribute "aPosition" (bare (a_Buffer 0)); call_bounds]
          (initial_world [quad_Buffer]))
       0 "change".
Proof.
  pose (none := mkDescriptor None None None None None).
  split; [|split; [|split; [|split]]].
  - destruct (proj1 (proj2
                (bounds_cache_state_machine none [] quad_world ""
                   (bare (a_Buffer 0)) [] "" (a_Buffer 0))) eq_refl)
      as (Ht & Hd & _).
    exact (conj Ht Hd).
  - exact (proj1 (proj2 (proj2
             (bounds_cache_state_machine none [] (snd (bounds quad_world)) ""
                (bare (a_Buffer 0)) [] "" (a_Buffer 0)))) eq_refl).
  - refine (proj1 (proj2 (proj2 (proj2
              (bounds_cache_state_machine none [] quad_world "aUv"
                 (bare (a_TypedArray quad)) [call_bounds] "change"
                 (a_Buffer 0))))) _ _ _ _).
    + split; eexists; reflexivity.
    + exact I.
    + reflexivity.
    + now right.
  - refine (proj2 (proj2 (proj2
              (proj1 (proj2 (proj2 (proj2 (proj2
                 (bounds_cache_state_machine none [] index_first_world
                    "aPosition" (bare (a_Buffer 0)) [call_bounds] "update"
                    (a_Buffer 0))))))
                 _))) _).
    + vm_compute. apply le_n.
    + reflexivity.
  - refine (proj2
              (proj2 (proj2 (proj2 (proj2 (proj2
                 (bounds_cache_state_machine none []
                    (initial_world [quad_Buffer]) "aPosition"
                    (bare (a_Buffer 0)) [call_bounds] "change"
                    (a_Buffer 0))))))
                 _ _) _).
    + eexists. reflexivity.
    + reflexivity.
    + reflexivity.
Defined.

(** C2 as stated fails: [B] is the index buffer when [addAttribute] gets
    it, so it is in [buffers] and the Geometry does not subscribe; after a
    read of [bounds], a notification from [B], the buffer of [aPosition],
    leaves the flag clear. *)
Lemma bounds_cache_counterexample :
  fst (getBuffer "aPosition" index_then_attribute_world) = Return (Some 0)
  /\ buffers (geometry index_then_attribute_world) = Some [0]
  /\ _boundsDirty (geometry index_then_attribute_world) = false
  /\ _boundsDirty
       (geometry (snd (Buffer_emit 0 "update" index_then_attribute_world)))
     = false
  /\ _boundsDirty
       (geometry (snd (Buffer_emit 0 "change" index_then_attribute_world)))
     = false.
Proof. repeat split. Qed.

(** ** The buffers collection *)

Lemma addAttribute_live `{BoundsCalculator} (w : World) (name : string)
  (o : AttributeOption) :
  live w ->
  fst (addAttribute name o w) = Return tt /\ live (snd (addAttribute name o w)).
Proof.
  intros [[attrs Ha] [bs Hbs]]. rewrite addAttribute_eq. cbn zeta.
  rewrite Hbs, Ha. split; [done|].
  unfold live. destruct (indexOf bs _ 0 =? -1)%Z; cbn; rewrite ?Hbs; eauto.
Qed.

Lemma addAttribute_occurrences `{BoundsCalculator} (w : World) (name : string)
  (o : AttributeOption) (ref : nat) :
  live w -> option_buffer o = a_Buffer ref ->
  occurrences ref (snd (addAttribute name o w)) = Nat.max 1 (occurrences ref w).
Proof.
  intros [[attrs Ha] [bs Hbs]] Ho. rewrite addAttribute_eq. cbn zeta.
  rewrite Hbs, Ha, Ho. cbn [resolves_to]. unfold occurrences. rewrite Hbs.
  destruct (indexOf bs ref 0 =? -1)%Z eqn:Hi; cbn.
  - apply indexOf_absent in Hi; [|done].
    rewrite occurrences_app, decide_True by done.
    apply occurrences_zero in Hi. rewrite Hi. done.
  - rewrite Hbs.
    assert (length (filter (fun y => y = ref) bs) <> 0) as Hn.
    { intros Hz. apply occurrences_zero in Hz.
      apply (indexOf_absent bs ref 0 (Z.le_refl 0)) in Hz. congruence. }
    lia.
Qed.

Lemma addAttribute_buffers `{BoundsCalculator} (w : World) (name : string)
  (o : AttributeOption) (bs : list nat) :
  live w -> buffers (geometry w) = Some bs ->
  buffers (geometry (snd (addAttribute name o w)))
  = Some (if decide (resolves_to w (option_buffer o) ∈ bs) then bs
          else bs ++ [resolves_to w (option_buffer o)]).
Proof.
  intros [[attrs Ha] _] Hbs. rewrite addAttribute_eq. cbn zeta.
  rewrite Hbs, Ha.
  destruct (indexOf bs _ 0 =? -1)%Z eqn:Hi; cbn.
  - apply indexOf_absent in Hi; [|done]. now rewrite decide_False.
  - rewrite Hbs. rewrite decide_True; [done|].
    destruct (decide (resolves_to w (option_buffer o) ∈ bs)) as [|Hn]; [done|].
    apply (indexOf_absent bs _ 0 (Z.le_refl 0)) in Hn. congruence.
Qed.

Lemma addAttribute_run_occurrences `{BoundsCalculator} (w : World)
  (ref : nat) (calls : list (string * AttributeOption)) :
  live w -> calls <> [] ->
  Forall (fun c => option_buffer (snd c) = a_Buffer ref) calls ->
  occurrences ref
    (run (map (fun c => call_addAttribute (fst c) (snd c)) calls) w)
  = Nat.max 1 (occurrences ref w).
Proof.
  revert w. induction calls as [|[name o] calls IH]; intros w Hlive Hne Hall;
    [done|].
  inversion Hall as [|? ? Ho Hrest]; subst. cbn [map run call fst snd].
  cbn in Ho.
  pose proof (addAttribute_live w name o Hlive) as [_ Hlive'].
  pose proof (addAttribute_occurrences w name o ref Hlive Ho) as Hocc.
  destruct calls as [|c calls]; [exact Hocc|].
  rewrite IH; [|done|done|done]. rewrite Hocc. lia.
Qed.

(** C3 (amended). When [buffers] holds a Buffer at most once, any number
    of [addAttribute] calls (one at least) whose specs resolve to that
    Buffer leave it in [buffers] exactly once; on a Geometry constructed
    without attributes and index, adding the Buffer under two names leaves
    [buffers] with that one entry. *)
Theorem addAttribute_deduplicates `{BoundsCalculator} (w : World) (ref : nat)
  (calls : list (string * AttributeOption)) (heap : list Buffer)
  (name1 name2 : string) (o1 o2 : AttributeOption) :
  (live w -> calls <> [] ->
   Forall (fun c => option_buffer (snd c) = a_Buffer ref) calls ->
   occurrences ref w <= 1 ->
   occurrences ref
     (run (map (fun c => call_addAttribute (fst c) (snd c)) calls) w)
   = 1)
  /\ (option_buffer o1 = a_Buffer ref -> option_buffer o2 = a_Buffer ref ->
      buffers
        (geometry
           (run [call_addAttribute name1 o1; call_addAttribute name2 o2]
              (snd (new_Geometry (mkDescriptor None None None None None)
                      heap))))
      = Some [ref]).
Proof.
  split.
  - intros Hlive Hne Hall Hocc.
    rewrite addAttribute_run_occurrences by done. lia.
  - intros Ho1 Ho2. cbn [run call].
    set (w0 := snd (new_Geometry _ heap)).
    assert (live w0) as Hlive0 by (split; eexists; reflexivity).
    pose proof (addAttribute_live w0 name1 o1 Hlive0) as [_ Hlive1].
    pose proof (addAttribute_buffers w0 name1 o1 [] Hlive0 eq_refl) as Hb1.
    rewrite Ho1 in Hb1. cbn [resolves_to] in Hb1.
    rewrite decide_False in Hb1 by apply not_elem_of_nil.
    rewrite (addAttribute_buffers _ name2 o2 _ Hlive1 Hb1).
    rewrite Ho2. cbn [resolves_to app].
    now rewrite decide_True by apply list_elem_of_here.
Qed.

Lemma addAttribute_deduplicates_witness :
  occurrences 0
    (run [call_addAttribute "aPosition" (bare (a_Buffer 0));
          call_addAttribute "aUv"
            (attribute_of (a_Buffer 0) None (Some 2%float))]
       index_first_world)
  = 1.
Proof.
  refine (proj1 (addAttribute_deduplicates index_first_world 0
                   [("aPosition", bare (a_Buffer 0));
                    ("aUv", attribute_of (a_Buffer 0) None (Some 2%float))]
                   [] "" "" (bare (a_Buffer 0)) (bare (a_Buffer 0)))
            _ _ _ _).
  - split; eexists; reflexivity.
  - discriminate.
  - repeat constructor.
  - vm_compute. apply le_n.
Defined.

(** C3 as stated fails: the constructor puts [B] into [buffers] for the
    attribute and once more for the index; [addAttribute] under a second
    name then leaves two entries. On a destroyed Geometry [addAttribute]
    throws and [buffers] stays [null]. *)
Lemma addAttribute_deduplicates_counterexample :
  (buffers
     (geometry (run [call_addAttribute "aUv" (bare (a_Buffer 0))]
                  shared_index_world))
   = Some [0; 0]
   /\ occurrences 0
        (run [call_addAttribute "aUv" (bare (a_Buffer 0))] shared_index_world)
      = 2)
  /\ (addAttribute "aUv" (bare (a_Buffer 0))
        (run [call_destroy false] shared_index_world)
      = (Throw TypeError, run [call_destroy false] shared_index_world)
      /\ occurrences 0 (run [call_destroy false] shared_index_world) = 0).
Proof. split; split; vm_compute; reflexivity. Qed.

Lemma get_set {V} (o : JS.object V) (k k' : string) (v : V) :
  JS.get (JS.set k v o) k' = if String.eqb k' k then Some v else JS.get o k'.
Proof.
  induction o as [|[k0 v0] o IH]; cbn.
  - reflexivity.
  - destruct (String.eqb_spec k k0) as [->|Hne]; cbn.
    + now destruct (String.eqb k' k0).
    + rewrite IH. destruct (String.eqb_spec k' k0) as [->|Hne'].
      * destruct (String.eqb_spec k0 k); [congruence|done].
      * reflexivity.
Qed.

Lemma call_references_held `{BoundsCalculator} (c : Call) (w : World) :
  references_held w -> references_held (snd (call c w)).
Proof.
  intros Hw.
  assert (keeps_collections c -> references_held (snd (call c w))) as Hkeep.
  { intros Hk. destruct (call_keeps_collections c w Hk) as (Ea & Eb & Ei & _).
    unfold references_held. now rewrite Ea, Eb, Ei. }
  destruct c; try (apply Hkeep; exact I); clear Hkeep; cbn [call].
  - rewrite addAttribute_eq. cbn zeta.
    destruct (buffers (geometry w)) as [bs|] eqn:Hbs;
      [|intros attrs bs' _; cbn; congruence].
    destruct (attributes (geometry w)) as [attrs|] eqn:Ha;
      [|intros attrs' bs' E; cbn in E;
        destruct (indexOf bs _ 0 =? -1)%Z; cbn in E; congruence].
    destruct (Hw attrs bs Ha Hbs) as [Hattrs Hindex].
    set (ref := resolves_to w (option_buffer attributeOption)).
    intros attrs' bs' Ea' Eb'. cbn [snd geometry] in Ea', Eb'.
    assert (bs' = bs /\ ref ∈ bs \/ bs' = bs ++ [ref]) as Hbs'.
    { destruct (indexOf bs ref 0 =? -1)%Z eqn:Hi; cbn in Eb'.
      - right. congruence.
      - left. split; [congruence|].
        destruct (decide (ref ∈ bs)) as [|Hn]; [done|].
        apply (indexOf_absent bs ref 0 (Z.le_refl 0)) in Hn. congruence. }
    assert (forall x, x ∈ bs -> x ∈ bs') as Hsub.
    { intros x Hx. destruct Hbs' as [[-> _]| ->]; [done|].
      apply elem_of_app. now left. }
    assert (ref ∈ bs') as Href.
    { destruct Hbs' as [[-> ?]| ->]; [done|].
      apply elem_of_app. right. left. }
    assert (attrs'
            = JS.set name (attribute_resolved attributeOption ref) attrs)
      as ->.
    { destruct (indexOf bs ref 0 =? -1)%Z; cbn in Ea'; congruence. }
    split.
    + intros n a. rewrite get_set.
      destruct (String.eqb n name).
      * intros [= <-]. now destruct attributeOption.
      * intros Hg. apply Hsub. now apply (Hattrs n).
    + intros r Hr. apply Hsub, Hindex.
      destruct (indexOf bs ref 0 =? -1)%Z; exact Hr.
  - rewrite addIndex_eq. cbn zeta.
    destruct (buffers (geometry w)) as [bs|] eqn:Hbs;
      [|intros attrs bs' _; cbn; congruence].
    intros attrs bs' Ea' Eb'. cbn in Ea', Eb'.
    injection Eb' as <-.
    destruct (Hw attrs bs Ea' Hbs) as [Hattrs _]. split.
    + intros n a Hg. apply elem_of_app. left. now apply (Hattrs n).
    + cbn. intros r [= <-]. apply elem_of_app. right. left.
  - rewrite destroy_eq. cbn zeta.
    destruct destroyBuffers.
    + destruct (buffers (geometry w)) as [bs|] eqn:Hbs.
      * intros attrs bs' E. cbn in E. congruence.
      * intros attrs bs' _ E. cbn in E. congruence.
    + intros attrs bs' E. cbn in E. congruence.
Qed.

Lemma run_references_held `{BoundsCalculator} (cs : list Call) (w : World) :
  references_held w -> references_held (run cs w).
Proof.
  revert w. induction cs as [|c cs IH]; intros w Hw; cbn; [done|].
  now apply IH, call_references_held.
Qed.

Lemma new_Geometry_references_held `{BoundsCalculator}
  (options : GeometryDescriptor) (heap : list Buffer) :
  references_held (snd (new_Geometry options heap)).
Proof.
  apply (new_Geometry_invariant references_held).
  - intros attrs bs [= <-] [= <-]. split; [intros n a [=]|intros r [=]].
  - intros attrs name o w _ _.
    apply (call_references_held (call_addAttribute name o)).
  - intros ib w _. apply (call_references_held (call_addIndex ib)).
  - intros v w Hw. exact Hw.
  - intros v w Hw. exact Hw.
Qed.

(** C9. On a Geometry reached from its constructor by any calls, the
    buffer of an attribute and the index buffer are in [buffers].
    [addAttribute] under an existing name returns, stores the new attribute
    under the name, and leaves [buffers] as it was or with one entry more:
    the buffer of the old attribute is still there. [addIndex] returns,
    stores the buffer it resolves to as [indexBuffer] and appends it to
    [buffers], whether there was an index buffer or not: the old index
    buffer and the buffers of the attributes are still there. A second
    [addIndex] replaces [indexBuffer] again and appends a second entry
    behind the first. *)
Theorem replacing_keeps_buffers `{BoundsCalculator}
  (options : GeometryDescriptor) (heap : list Buffer) (calls : list Call)
  (name : string) (o : AttributeOption) (ib ib2 : BufferLike)
  (attrs : JS.object Attribute) (bs : list nat) :
  let w := run calls (snd (new_Geometry options heap)) in
  attributes (geometry w) = Some attrs ->
  buffers (geometry w) = Some bs ->
  (forall old,
     JS.get attrs name = Some old ->
     buffer old ∈ bs
     /\ fst (addAttribute name o w) = Return tt
     /\ (exists attrs',
           attributes (geometry (snd (addAttribute name o w))) = Some attrs'
           /\ JS.get attrs' name
              = Some (attribute_resolved o (resolves_to w (option_buffer o))))
     /\ (exists added,
           buffers (geometry (snd (addAttribute name o w))) = Some (bs ++ added)
           /\ buffer old ∈ bs ++ added))
  /\ (fst (addIndex ib w) = Return tt
      /\ indexBuffer (geometry (snd (addIndex ib w))) = Some (resolves_to w ib)
      /\ buffers (geometry (snd (addIndex ib w)))
         = Some (bs ++ [resolves_to w ib])
      /\ attributes (geometry (snd (addIndex ib w))) = Some attrs
      /\ (forall old,
            indexBuffer (geometry w) = Some old ->
            old ∈ bs /\ old ∈ bs ++ [resolves_to w ib])
      /\ (forall n a,
            JS.get attrs n = Some a -> buffer a ∈ bs ++ [resolves_to w ib]))
  /\ (let w1 := snd (addIndex ib w) in
      fst (addIndex ib2 w1) = Return tt
      /\ indexBuffer (geometry (snd (addIndex ib2 w1)))
         = Some (resolves_to w1 ib2)
      /\ buffers (geometry (snd (addIndex ib2 w1)))
         = Some (bs ++ [resolves_to w ib; resolves_to w1 ib2])).
Proof.
  intros w Ha Hbs.
  assert (references_held w) as Hheld
    by apply run_references_held, new_Geometry_references_held.
  destruct (Hheld attrs bs Ha Hbs) as [Hattrs Hindex].
  assert (live w) as Hlive by (split; eauto).
  split; [|split].
  - intros old Hold. pose proof (Hattrs name old Hold) as Hin.
    split; [exact Hin|]. split; [apply addAttribute_live, Hlive|]. split.
    + rewrite addAttribute_eq. cbn zeta. rewrite Hbs, Ha.
      eexists. split; [reflexivity|]. rewrite get_set.
      now rewrite String.eqb_refl.
    + rewrite (addAttribute_buffers w name o bs Hlive Hbs).
      destruct (decide (resolves_to w (option_buffer o) ∈ bs)).
      * exists []. now rewrite app_nil_r.
      * eexists. split; [reflexivity|]. apply elem_of_app. now left.
  - rewrite addIndex_eq. cbn zeta. rewrite Hbs. cbn.
    split; [done|]. split; [done|]. split; [done|]. split; [done|]. split.
    + intros old Hold. pose proof (Hindex old Hold) as Hin.
      split; [exact Hin|]. apply elem_of_app. now left.
    + intros n a Hg. apply elem_of_app. left. now apply (Hattrs n).
  - cbn zeta. rewrite (addIndex_eq ib2). cbn zeta.
    rewrite addIndex_eq. cbn zeta. rewrite Hbs. cbn.
    now rewrite <- app_assoc.
Qed.

Lemma replacing_keeps_buffers_witness :
  (buffers (geometry indexed_quad_world) = Some [0; 1]
   /\ indexBuffer (geometry indexed_quad_world) = Some 1)
  /\ (exists added,
        buffers
          (geometry
             (snd (addAttribute "aPosition"
                     (bare (a_number_array [1; 1; 1; 1]%float))
                     indexed_quad_world)))
        = Some ([0; 1] ++ added)
        /\ 0 ∈ [0; 1] ++ added)
  /\ (indexBuffer
        (geometry
           (snd (addIndex (a_number_array [0; 2; 3]%float) indexed_quad_world)))
      = Some 2
      /\ buffers
           (geometry
              (snd (addIndex (a_number_array [0; 2; 3]%float)
                      indexed_quad_world)))
         = Some ([0; 1] ++ [2])
      /\ 1 ∈ [0; 1] ++ [2]).
Proof.
  pose proof
    (replacing_keeps_buffers
       (descriptor_of
          [("aPosition", attribute_of (a_number_array quad) None (Some 2%float))]
          (Some (a_number_array [0; 1; 2]%float)))
       [] [] "aPosition"
       (bare (a_number_array [1; 1; 1; 1]%float))
       (a_number_array [0; 2; 3]%float) (a_Buffer 0)
       [("aPosition",
         mkAttribute 0 None None None None (Some 2%float) None None)]
       [0; 1] eq_refl eq_refl) as (Hattribute & Hindex & _).
  split; [split; reflexivity|]. split.
  - exact (proj2 (proj2 (proj2 (Hattribute _ eq_refl)))).
  - destruct Hindex as (_ & Hi & Hb & _ & Hold & _).
    split; [exact Hi|]. split; [exact Hb|].
    exact (proj2 (Hold 1 eq_refl)).
Defined.

(** ** Geometry.destroy *)

Lemma call_torn_down `{BoundsCalculator} (c : Call) (w : World) :
  torn_down w -> torn_down (snd (call c w)).
Proof.
  intros (Ha & Hb & Hc).
  assert (keeps_collections c -> torn_down (snd (call c w))) as Hkeep.
  { intros Hk. destruct (call_keeps_collections c w Hk) as (Ea & Eb & _ & Ec).
    unfold torn_down. now rewrite Ea, Eb, Ec. }
  destruct c; try (apply Hkeep; exact I); clear Hkeep; cbn [call].
  - rewrite addAttribute_eq. cbn zeta. now rewrite Hb.
  - rewrite addIndex_eq. cbn zeta. now rewrite Hb.
  - rewrite destroy_eq. cbn zeta. rewrite Hb. now destruct destroyBuffers.
Qed.

Lemma run_torn_down `{BoundsCalculator} (cs : list Call) (w : World) :
  torn_down w -> torn_down (run cs w).
Proof.
  revert w. induction cs as [|c cs IH]; intros w Hw; cbn; [done|].
  now apply IH, call_torn_down.
Qed.

Lemma destroy_returns `{BoundsCalculator} (destroyBuffers : bool) (w : World) :
  fst (destroy destroyBuffers w) = Return tt ->
  torn_down (snd (destroy destroyBuffers w)).
Proof.
  rewrite destroy_eq. cbn zeta. destruct destroyBuffers; [|done].
  now destruct (buffers (geometry w)).
Qed.

(** C5 (amended). On a Geometry that has its [buffers], [destroy] returns;
    it emits [destroy] to the listeners of the Geometry and removes them,
    calls the destroy of each entry of [buffers] when [destroyBuffers] is
    set and of none otherwise, and clears the collections, the index buffer
    and the cache. It takes no listener off a buffer: after
    [destroy(false)] the heap is what it was, and a notification from a
    buffer the Geometry subscribed to still runs [onBufferUpdate], which
    sets the flag and emits [update]. *)
Theorem destroy_detaches_own_listeners `{BoundsCalculator} (w : World)
  (destroyBuffers : bool) (bs : list nat) (ref : nat) (event : string) :
  buffers (geometry w) = Some bs ->
  fst (destroy destroyBuffers w) = Return tt
  /\ trace (snd (destroy destroyBuffers w))
     = trace w ++ emit_trace "destroy" (geometry w)
       ++ (if destroyBuffers then map buffer_destroy bs else [])
  /\ _events (geometry (snd (destroy destroyBuffers w))) = []
  /\ torn_down (snd (destroy destroyBuffers w))
  /\ indexBuffer (geometry (snd (destroy destroyBuffers w))) = None
  /\ buffer_heap (snd (destroy false w)) = buffer_heap w
  /\ (0 < subscriptions w ref event ->
      _boundsDirty
        (geometry (snd (Buffer_emit ref event (snd (destroy false w)))))
      = true
      /\ trace (snd (Buffer_emit ref event (snd (destroy false w))))
         = trace (snd (destroy false w))
           ++ flat_map
                (fun fn =>
                   match fn with
                   | onBufferUpdate_listener => [handler_run; emitted "update"]
                   | callback id => [buffer_invoked ref event id]
                   end)
                (match buffer_heap w !! ref with
                 | Some b => listeners event (buffer_events b)
                 | None => []
                 end)
      /\ handler_run
         ∈ trace (snd (Buffer_emit ref event (snd (destroy false w))))).
Proof.
  intros Hbs. rewrite !destroy_eq. cbn zeta. rewrite Hbs.
  split; [now destruct destroyBuffers|].
  split; [destruct destroyBuffers; cbn; now rewrite <- ?app_assoc, ?app_nil_r|].
  split; [now destruct destroyBuffers|].
  split; [now destruct destroyBuffers|].
  split; [now destruct destroyBuffers|].
  split; [done|].
  intros Hs.
  set (w' := mkWorld _ _ _ _).
  assert (0 < subscriptions w' ref event) as Hs' by exact Hs.
  destruct (subscribed_heard w' ref event Hs') as (Hflag & added & Ht & Hrun & _).
  split; [exact Hflag|]. split.
  - rewrite Buffer_emit_eq. cbn [snd]. subst w'. cbn [buffer_heap].
    destruct (buffer_heap w !! ref) as [b|]; cbn [trace]; [|now rewrite app_nil_r].
    reflexivity.
  - cbn [snd]. rewrite Ht. apply elem_of_app. now right.
Qed.

Lemma destroy_detaches_own_listeners_witness :
  handler_run ∈ trace (snd (Buffer_emit 0 "change" (snd (destroy false quad_world)))).
Proof.
  pose proof
    (destroy_detaches_own_listeners quad_world false [0] 0 "change" eq_refl)
    as (_ & _ & _ & _ & _ & _ & Hheard).
  refine (proj2 (proj2 (Hheard _))).
  vm_compute. apply le_n.
Defined.

(** C5 as stated fails: after a read of [bounds] and [destroy(false)], a
    [change] notification of the buffer of [aPosition] runs
    [onBufferUpdate], which sets the flag of the destroyed Geometry and
    emits [update]. *)
Lemma destroy_detaches_counterexample :
  trace (run [call_bounds; call_destroy false; call_Buffer_emit 0 "change"]
           quad_world)
  = [recomputed "aPosition"; emitted "destroy"; handler_run; emitted "update"]
  /\ _boundsDirty (geometry (run [call_bounds; call_destroy false] quad_world))
     = false
  /\ _boundsDirty
       (geometry
          (run [call_bounds; call_destroy false; call_Buffer_emit 0 "change"]
             quad_world))
     = true
  /\ subscriptions (run [call_bounds; call_destroy false] quad_world) 0 "change"
     = 1.
Proof. repeat split. Qed.

(** C6 (amended). Once [destroy] has returned, whatever is called
    afterwards, [addAttribute] and [getAttribute] throw a TypeError,
    [getSize] returns 0, and a read of [bounds] with the flag clear returns
    [null]; neither of the last two changes anything. *)
Theorem after_destroy `{BoundsCalculator} (w : World) (destroyBuffers : bool)
  (calls : list Call) (name id : string) (o : AttributeOption) :
  fst (destroy destroyBuffers w) = Return tt ->
  let w' := run calls (snd (destroy destroyBuffers w)) in
  fst (addAttribute name o w') = Throw TypeError
  /\ fst (getAttribute id w') = Throw TypeError
  /\ getSize w' = (Return 0%float, w')
  /\ (_boundsDirty (geometry w') = false -> bounds w' = (Return None, w')).
Proof.
  intros Hret w'.
  assert (torn_down w') as (Ha & Hb & Hc)
    by now apply run_torn_down, destroy_returns.
  split; [|split; [|split]].
  - rewrite addAttribute_eq. cbn zeta. now rewrite Hb.
  - unfold getAttribute. unfold_monad. now rewrite Ha.
  - unfold getSize. unfold_monad. now rewrite Ha.
  - intros Hclean. rewrite (bounds_clean w' Hclean). now rewrite Hc.
Qed.

Lemma after_destroy_witness :
  getSize (run [call_getSize] (snd (destroy true quad_world)))
  = (Return 0%float, run [call_getSize] (snd (destroy true quad_world))).
Proof.
  exact (proj1 (proj2 (proj2
           (after_destroy quad_world true [call_getSize] "aUv" "aPosition"
              (bare (a_number_array quad)) eq_refl)))).
Defined.

(** C6 as stated fails: after a read of [bounds] and [destroy(true)],
    [getSize] returns 0 and a read of [bounds] returns [null]; neither
    throws. *)
Lemma after_destroy_counterexample :
  fst (destroy true (snd (bounds quad_world))) = Return tt
  /\ fst (getSize (run [call_bounds; call_destroy true] quad_world))
     = Return 0%float
  /\ fst (bounds (run [call_bounds; call_destroy true] quad_world))
     = Return None.
Proof. repeat split. Qed.

(** * Further properties *)

(** ** The constructor *)

Lemma run_app_calls `{BoundsCalculator} (cs1 cs2 : list Call) (w : World) :
  run (cs1 ++ cs2) w = run cs2 (run cs1 w).
Proof.
  revert w. induction cs1 as [|c cs1 IH]; intros w; cbn; [done|apply IH].
Qed.

Lemma for_each_addAttribute `{BoundsCalculator}
  (attrs : JS.object AttributeOption) (keys : list string) (w : World) :
  live w ->
  for_each
    (fun i =>
       match JS.get attrs i with
       | Some o => addAttribute i o
       | None => ret tt
       end) keys w
  = (Return tt,
     run (flat_map
            (fun i =>
               match JS.get attrs i with
               | Some o => [call_addAttribute i o]
               | None => []
               end) keys) w)
  /\ live
       (run (flat_map
               (fun i =>
                  match JS.get attrs i with
                  | Some o => [call_addAttribute i o]
                  | None => []
                  end) keys) w).
Proof.
  revert w. induction keys as [|i keys IH]; intros w Hlive; [done|].
  cbn [for_each flat_map]. unfold mbind, M_bind, bind.
  destruct (JS.get attrs i) as [o|].
  - destruct (addAttribute_live w i o Hlive) as [Hret Hlive'].
    cbn [app run call].
    destruct (addAttribute i o w) as [r w1]. cbn in Hret, Hlive' |- *.
    subst r. now apply IH.
  - cbn. now apply IH.
Qed.

Lemma attribute_calls_live `{BoundsCalculator}
  (options : GeometryDescriptor) (heap : list Buffer) :
  live (run (attribute_calls options) (initial_world heap)).
Proof.
  assert (live (initial_world heap)) as Hlive0 by (split; eexists; reflexivity).
  unfold attribute_calls. destruct (d_attributes options) as [attrs|]; [|done].
  now apply for_each_addAttribute.
Qed.

Lemma new_Geometry_run `{BoundsCalculator}
  (options : GeometryDescriptor) (heap : list Buffer) :
  new_Geometry options heap
  = (Return tt,
     with_geometry (run (constructor_calls options) (initial_world heap))
       (constructor_fields options
          (geometry (run (constructor_calls options) (initial_world heap))))).
Proof.
  unfold new_Geometry, constructor_calls. fold (initial_world heap).
  rewrite run_app_calls.
  assert (live (initial_world heap)) as Hlive0 by (split; eexists; reflexivity).
  set (loop :=
         match d_attributes options with
         | Some attrs =>
             for_each
               (fun i =>
                  match JS.get attrs i with
                  | Some o => addAttribute i o
                  | None => ret tt
                  end) (JS.for_in_keys attrs)
         | None => ret tt
         end).
  assert (loop (initial_world heap)
          = (Return tt, run (attribute_calls options) (initial_world heap)))
    as Hloop.
  { subst loop. unfold attribute_calls.
    destruct (d_attributes options) as [attrs|]; [|done].
    now apply for_each_addAttribute. }
  destruct (attribute_calls_live options heap) as [_ [bs Hbs]].
  unfold mbind at 1. unfold M_bind, bind at 1. rewrite Hloop.
  set (w1 := run (attribute_calls options) (initial_world heap)) in *.
  unfold mbind, M_bind, bind, assign, with_geometry, constructor_fields.
  cbn [geometry buffer_heap bounds_heap trace].
  destruct (d_indexBuffer options) as [ib|]; [|reflexivity].
  cbn [run call]. rewrite !addIndex_eq. cbn zeta.
  cbn [geometry buffer_heap bounds_heap trace set_instanceCount buffers].
  rewrite Hbs. reflexivity.
Qed.

Lemma new_Geometry_quiet `{BoundsCalculator}
  (options : GeometryDescriptor) (heap : list Buffer) :
  let w := snd (new_Geometry options heap) in
  trace w = [] /\ _events (geometry w) = [] /\ _bounds (geometry w) = Some 0
  /\ bounds_heap w = [Bounds_new] /\ live w.
Proof.
  apply (new_Geometry_invariant
           (fun w => trace w = [] /\ _events (geometry w) = []
                     /\ _bounds (geometry w) = Some 0
                     /\ bounds_heap w = [Bounds_new] /\ live w)).
  - repeat split; eexists; reflexivity.
  - intros attrs name o w _ _ (Ht & He & Hb & Hh & Hlive).
    destruct (addAttribute_live w name o Hlive) as [_ Hlive'].
    split; [|split; [|split; [|split]]]; try exact Hlive';
      destruct Hlive as [[a Ha] [bs Hbs]];
      rewrite addAttribute_eq; cbn zeta; rewrite Hbs, Ha;
      now destruct (indexOf bs _ 0 =? -1)%Z.
  - intros ib w _ (Ht & He & Hb & Hh & [[a Ha] [bs Hbs]]).
    rewrite addIndex_eq. cbn zeta. rewrite Hbs. cbn.
    repeat split; eauto.
  - intros v w Hw. exact Hw.
  - intros v w Hw. exact Hw.
Qed.

(** X5. The constructor returns for every descriptor, and what it makes is
    what [addAttribute] for each attribute of the descriptor in for-in
    order and then [addIndex] make of the initial fields, with
    [instanceCount] and [topology] assigned. [instanceCount] is the
    descriptor's, or 1 when it has none; [topology] is the descriptor's, or
    ['triangle-list'] when it has none or the empty string. No event is
    emitted and the Geometry has no listener. Without [indexBuffer] in the
    descriptor the index buffer is undefined; with one, it is the last entry
    of [buffers]. *)
Theorem new_Geometry_fields `{BoundsCalculator}
  (options : GeometryDescriptor) (heap : list Buffer) :
  let w := snd (new_Geometry options heap) in
  new_Geometry options heap
  = (Return tt,
     with_geometry (run (constructor_calls options) (initial_world heap))
       (constructor_fields options
          (geometry (run (constructor_calls options) (initial_world heap)))))
  /\ instanceCount (geometry w) = JS.nullish (d_instanceCount options) 1%float
  /\ topology (geometry w)
     = Some match d_topology options with
            | Some t => if String.eqb t "" then "triangle-list" else t
            | None => "triangle-list"
            end
  /\ trace w = [] /\ _events (geometry w) = []
  /\ match d_indexBuffer options with
     | None => indexBuffer (geometry w) = None
     | Some ib =>
         exists ref bs,
           indexBuffer (geometry w) = Some ref
           /\ buffers (geometry w) = Some (bs ++ [ref])
     end.
Proof.
  intros w. destruct (new_Geometry_quiet options heap) as (Ht & He & _).
  split; [apply new_Geometry_run|]. subst w.
  split; [now rewrite new_Geometry_run|].
  split; [now rewrite new_Geometry_run|].
  split; [exact Ht|]. split; [exact He|].
  rewrite new_Geometry_run. cbn [snd with_geometry geometry].
  unfold constructor_calls. rewrite run_app_calls.
  destruct (attribute_calls_live options heap) as [_ [bs Hbs]].
  destruct (d_indexBuffer options) as [ib|].
  - cbn [run call]. rewrite addIndex_eq. cbn zeta. rewrite Hbs. cbn.
    eauto.
  - cbn [run]. cbn.
    assert (forall cs w0,
              Forall (fun c => exists n o, c = call_addAttribute n o) cs ->
              indexBuffer (geometry (run cs w0)) = indexBuffer (geometry w0))
      as Hkeep.
    { induction cs as [|c cs IH]; intros w0 Hcs; [done|].
      inversion Hcs as [|? ? (n & o & ->) Hrest]; subst. cbn [run call].
      rewrite IH by done. rewrite addAttribute_eq. cbn zeta.
      destruct (buffers (geometry w0)) as [bs0|]; [|done].
      now destruct (indexOf bs0 _ 0 =? -1)%Z, (attributes (geometry w0)). }
    rewrite Hkeep; [done|].
    unfold attribute_calls. destruct (d_attributes options) as [attrs|];
      [|constructor].
    apply Forall_flat_map, Forall_forall. intros i _.
    destruct (JS.get attrs i) as [o|]; repeat constructor. eauto.
Qed.

Lemma insert_index_keys (i : N) (k x : string) (l : list (N * string)) :
  x ∈ map snd (JS.insert_index i k l) <-> x = k \/ x ∈ map snd l.
Proof.
  induction l as [|[j k'] l IH]; cbn.
  - rewrite list_elem_of_singleton, elem_of_nil. tauto.
  - destruct (i <=? j)%N; cbn; rewrite !elem_of_cons; [tauto|].
    rewrite IH. tauto.
Qed.

Lemma for_in_keys_complete {V} (o : JS.object V) (k : string) (v : V) :
  JS.get o k = Some v -> k ∈ JS.for_in_keys o.
Proof.
  unfold JS.for_in_keys. rewrite elem_of_app.
  induction o as [|[k0 v0] o IH]; cbn; [done|].
  destruct (String.eqb_spec k k0) as [->|Hne].
  - intros _. destruct (JS.array_index k0).
    + left. apply insert_index_keys. now left.
    + right. left.
  - intros Hg. destruct (IH Hg) as [Hi|Hn]; destruct (JS.array_index k0).
    + left. apply insert_index_keys. now right.
    + now left.
    + now right.
    + right. now right.
Qed.

Lemma addAttribute_attributes `{BoundsCalculator} (w : World) (name : string)
  (o : AttributeOption) (a : JS.object Attribute) :
  live w -> attributes (geometry w) = Some a ->
  attributes (geometry (snd (addAttribute name o w)))
  = Some (JS.set name
            (attribute_resolved o (resolves_to w (option_buffer o))) a).
Proof.
  intros [_ [bs Hbs]] Ha. rewrite addAttribute_eq. cbn zeta. rewrite Hbs, Ha.
  now destruct (indexOf bs _ 0 =? -1)%Z.
Qed.

Lemma attribute_calls_get `{BoundsCalculator} (heap : list Buffer)
  (attrs : JS.object AttributeOption) (keys seen : list string) (w : World) :
  live w -> length heap <= length (buffer_heap w) ->
  (forall i o,
     i ∈ seen -> JS.get attrs i = Some o ->
     exists ref a,
       attributes (geometry w) = Some a
       /\ JS.get a i = Some (attribute_resolved o ref)
       /\ resolved_from heap w (option_buffer o) ref) ->
  forall i o,
    i ∈ seen ++ keys -> JS.get attrs i = Some o ->
    exists ref a,
      attributes
        (geometry
           (run (flat_map
                   (fun i =>
                      match JS.get attrs i with
                      | Some o => [call_addAttribute i o]
                      | None => []
                      end) keys) w))
      = Some a
      /\ JS.get a i = Some (attribute_resolved o ref)
      /\ resolved_from heap
           (run (flat_map
                   (fun i =>
                      match JS.get attrs i with
                      | Some o => [call_addAttribute i o]
                      | None => []
                      end) keys) w)
           (option_buffer o) ref.
Proof.
  revert seen w. induction keys as [|k keys IH]; intros seen w Hlive Hle Hseen.
  - intros i o. rewrite app_nil_r. apply Hseen.
  - intros i o Hi Hg. cbn [flat_map]. rewrite run_app_calls.
    replace (seen ++ k :: keys) with ((seen ++ [k]) ++ keys) in Hi
      by now rewrite <- app_assoc.
    destruct (JS.get attrs k) as [ok|] eqn:Hk.
    + cbn [run call].
      destruct (addAttribute_live w k ok Hlive) as [_ Hlive'].
      pose proof (call_heap_length (call_addAttribute k ok) w) as Hlen.
      cbn [call] in Hlen.
      apply (IH (seen ++ [k]) _ Hlive'); [lia| |exact Hi|exact Hg].
      intros j oj Hj Hgj. destruct Hlive as [[a Ha] Hb].
      rewrite (addAttribute_attributes w k ok a (conj (ex_intro _ a Ha) Hb) Ha).
      destruct (String.eqb_spec j k) as [->|Hne].
      * assert (oj = ok) as -> by congruence.
        eexists _, _. split; [reflexivity|]. split.
        -- rewrite get_set. now rewrite String.eqb_refl.
        -- now apply addAttribute_resolved_from.
      * apply elem_of_app in Hj as [Hj|Hj];
          [|apply list_elem_of_singleton in Hj; congruence].
        destruct (Hseen j oj Hj Hgj) as (ref & a' & Ha' & Hget & Hres).
        assert (a' = a) as -> by congruence.
        eexists _, _. split; [reflexivity|]. split.
        -- rewrite get_set.
           destruct (String.eqb_spec j k); [congruence|exact Hget].
        -- now apply (call_resolved_from heap (call_addAttribute k ok)).
    + cbn [run]. apply (IH (seen ++ [k]) _ Hlive); [exact Hle| |exact Hi|exact Hg].
      intros j oj Hj Hgj.
      apply elem_of_app in Hj as [Hj|Hj]; [now apply Hseen|].
      apply list_elem_of_singleton in Hj. congruence.
Qed.

(** X6. Every attribute of the descriptor can be read back from the Geometry
    the constructor makes: [getAttribute] returns an Attribute with the
    fields of the description and the Buffer its buffer resolved to, which
    is in [buffers] and is what [getBuffer] returns. That Buffer is the one
    the description names, when it names a Buffer, and otherwise a Buffer
    made by the constructor that holds the numbers of the description's
    array. *)
Theorem new_Geometry_attributes `{BoundsCalculator}
  (options : GeometryDescriptor) (heap : list Buffer)
  (attrs : JS.object AttributeOption) (name : string) (o : AttributeOption) :
  d_attributes options = Some attrs -> JS.get attrs name = Some o ->
  let w := snd (new_Geometry options heap) in
  exists ref bs,
    getAttribute name w = (Return (JS.own (attribute_resolved o ref)), w)
    /\ getBuffer name w = (Return (Some ref), w)
    /\ buffers (geometry w) = Some bs
    /\ ref ∈ bs
    /\ (forall r, option_buffer o = a_Buffer r -> ref = r)
    /\ (forall xs,
          option_buffer o = a_TypedArray xs \/ option_buffer o = a_number_array xs ->
          length heap <= ref
          /\ exists buf, buffer_heap w !! ref = Some buf /\ data buf = xs).
Proof.
  intros Hattrs Hget w.
  pose proof (new_Geometry_references_held options heap) as Hheld.
  destruct (new_Geometry_quiet options heap) as (_ & _ & _ & _ & _ & [bs Hbs]).
  assert (exists ref a,
            attributes (geometry w) = Some a
            /\ JS.get a name = Some (attribute_resolved o ref)
            /\ resolved_from heap w (option_buffer o) ref)
    as (ref & a & Ha & Hname & Hres).
  { subst w. rewrite new_Geometry_run. cbn [snd with_geometry geometry].
    unfold constructor_calls. rewrite run_app_calls.
    pose proof (attribute_calls_live options heap) as Hlive1.
    assert (exists ref a,
              attributes
                (geometry (run (attribute_calls options) (initial_world heap)))
              = Some a
              /\ JS.get a name = Some (attribute_resolved o ref)
              /\ resolved_from heap
                   (run (attribute_calls options) (initial_world heap))
                   (option_buffer o) ref)
      as (ref & a & Ha & Hname & Hres).
    { unfold attribute_calls. rewrite Hattrs.
      apply (attribute_calls_get heap attrs (JS.for_in_keys attrs) []).
      - split; eexists; reflexivity.
      - done.
      - intros i oi Hi. now apply elem_of_nil in Hi.
      - cbn. now apply (for_in_keys_complete attrs name o).
      - exact Hget. }
    exists ref, a.
    assert (forall w0 g b r,
              resolved_from heap w0 b r ->
              resolved_from heap (with_geometry w0 g) b r) as Hwith
      by (intros w0 g [] r; done).
    split; [|split; [exact Hname|]].
    - destruct (d_indexBuffer options) as [ib|]; cbn [run call]; [|exact Ha].
      rewrite addIndex_eq. cbn zeta.
      destruct Hlive1 as [_ [bs1 Hbs1]]. now rewrite Hbs1.
    - apply (Hwith _ (constructor_fields options _)).
      now apply run_resolved_from. }
  exists ref, bs.
  split; [unfold getAttribute, JS.read; unfold_monad; now rewrite Ha, Hname|].
  split; [unfold getBuffer, getAttribute, JS.read; unfold_monad;
          rewrite Ha, Hname; now destruct o|].
  split; [exact Hbs|]. split.
  { destruct (Hheld a bs Ha Hbs) as [Hin _].
    specialize (Hin name _ Hname). now destruct o. }
  unfold resolved_from in Hres. split.
  - intros r Hr. now rewrite Hr in Hres.
  - intros xs [Hx|Hx]; now rewrite Hx in Hres.
Qed.

Lemma new_Geometry_attributes_witness :
  (exists ref bs,
     getAttribute "aPosition" quad_world
     = (Return
          (JS.own
             (attribute_resolved
                (attribute_of (a_number_array quad) None (Some 2%float)) ref)),
        quad_world)
     /\ getBuffer "aPosition" quad_world = (Return (Some ref), quad_world)
     /\ buffers (geometry quad_world) = Some bs
     /\ ref ∈ bs
     /\ exists buf, buffer_heap quad_world !! ref = Some buf /\ data buf = quad)
  /\ fst (getBuffer "aPosition" shared_index_world) = Return (Some 0).
Proof.
  split.
  - destruct (new_Geometry_attributes
                (descriptor_of
                   [("aPosition",
                     attribute_of (a_number_array quad) None (Some 2%float))]
                   None)
                []
                [("aPosition",
                  attribute_of (a_number_array quad) None (Some 2%float))]
                "aPosition"
                (attribute_of (a_number_array quad) None (Some 2%float))
                eq_refl eq_refl)
      as (ref & bs & Ha & Hb & Hbs & Hin & _ & Harray).
    exists ref, bs. split; [exact Ha|]. split; [exact Hb|].
    split; [exact Hbs|]. split; [exact Hin|].
    exact (proj2 (Harray quad (or_intror eq_refl))).
  - destruct (new_Geometry_attributes
                (descriptor_of [("aPosition", bare (a_Buffer 0))]
                   (Some (a_Buffer 0)))
                [quad_Buffer] [("aPosition", bare (a_Buffer 0))] "aPosition"
                (bare (a_Buffer 0)) eq_refl eq_refl)
      as (ref & bs & _ & Hb & _ & _ & Href & _).
    rewrite (Href 0 eq_refl) in Hb.
    exact (f_equal fst Hb).
Defined.

(** ** The accessors *)

Lemma read_set {V} (o : JS.object V) (k k' : string) (v : V) :
  JS.read (JS.set k v o) k'
  = if String.eqb k' k then JS.own v else JS.read o k'.
Proof.
  unfold JS.read. rewrite get_set. now destruct (String.eqb k' k).
Qed.

(** X7. After [addAttribute(name, spec)], for a name other than
    [__proto__], on a Geometry that has not been destroyed:
    [addAttribute] returned, [getAttribute(name)] returns the Attribute
    made of the spec and [getBuffer(name)] the Buffer the spec resolved to
    (the Buffer that was passed, when one was); under every other name
    [getAttribute] and [getBuffer] return what they returned before. *)
Theorem getAttribute_after_addAttribute `{BoundsCalculator} (w : World)
  (name other : string) (o : AttributeOption) (ref : nat) :
  live w -> name <> "__proto__" ->
  let w' := snd (addAttribute name o w) in
  fst (addAttribute name o w) = Return tt
  /\ getAttribute name w'
     = (Return (JS.own (attribute_resolved o (resolves_to w (option_buffer o)))),
        w')
  /\ getBuffer name w' = (Return (Some (resolves_to w (option_buffer o))), w')
  /\ (option_buffer o = a_Buffer ref ->
      fst (getBuffer name w') = Return (Some ref))
  /\ (other <> name ->
      fst (getAttribute other w') = fst (getAttribute other w)
      /\ fst (getBuffer other w') = fst (getBuffer other w)).
Proof.
  intros Hlive _ w'. pose proof Hlive as [[a Ha] _].
  pose proof (addAttribute_attributes w name o a Hlive Ha) as Ha'.
  fold w' in Ha'.
  assert (getBuffer name w'
          = (Return (Some (resolves_to w (option_buffer o))), w')) as Hbuffer.
  { unfold getBuffer, getAttribute. unfold_monad.
    rewrite Ha', read_set, String.eqb_refl. now destruct o. }
  split; [apply addAttribute_live, Hlive|].
  split; [|split; [exact Hbuffer|split]].
  - unfold getAttribute. unfold_monad.
    now rewrite Ha', read_set, String.eqb_refl.
  - intros Ho. rewrite Hbuffer, Ho. reflexivity.
  - intros Hne. unfold getBuffer, getAttribute. unfold_monad.
    rewrite Ha', Ha, read_set.
    destruct (String.eqb_spec other name); [done|].
    split; [done|]. now destruct (JS.read a other).
Qed.

Lemma getAttribute_after_addAttribute_witness :
  fst (getBuffer "aUv"
         (snd (addAttribute "aUv" (bare (a_Buffer 0)) quad_world)))
  = Return (Some 0)
  /\ fst (getBuffer "aPosition"
            (snd (addAttribute "aUv" (bare (a_Buffer 0)) quad_world)))
     = fst (getBuffer "aPosition" quad_world).
Proof.
  assert (live quad_world) as Hlive by (split; eexists; reflexivity).
  assert ("aUv" <> "__proto__") as Hname by discriminate.
  destruct (getAttribute_after_addAttribute quad_world "aUv" "aPosition"
              (bare (a_Buffer 0)) 0 Hlive Hname)
    as (_ & _ & _ & Hpassed & Hother).
  split; [exact (Hpassed eq_refl)|].
  refine (proj2 (Hother _)). discriminate.
Defined.

(** X8. On a Geometry that has no attribute under [id], and none under
    [__proto__]: when [id] is no property of [Object.prototype],
    [getAttribute] returns [undefined] and [getBuffer] throws a TypeError;
    when it is one ([constructor], [toString], ...), [getAttribute] returns
    that inherited member and [getBuffer] returns [undefined] without
    throwing. Neither changes anything. So it is for every name on a
    Geometry constructed without attributes. *)
Theorem getBuffer_of_missing_attribute `{BoundsCalculator} (w : World)
  (a : JS.object Attribute) (id : string) (heap : list Buffer)
  (ib : option BufferLike) (t : option string) (n : JS.optnum) :
  (attributes (geometry w) = Some a -> JS.get a id = None ->
   JS.get a "__proto__" = None ->
   (JS.inherited id = false ->
    getAttribute id w = (Return JS.undefined, w)
    /\ getBuffer id w = (Throw TypeError, w))
   /\ (JS.inherited id = true ->
       getAttribute id w = (Return (JS.builtin id), w)
       /\ getBuffer id w = (Return None, w)))
  /\ (let w0 := snd (new_Geometry (mkDescriptor None None ib t n) heap) in
      getBuffer id w0
      = (if JS.inherited id then Return None else Throw TypeError, w0)).
Proof.
  split.
  - intros Ha Hg _. unfold getBuffer, getAttribute, JS.read. unfold_monad.
    rewrite Ha, Hg. split; intros ->; done.
  - cbn zeta. unfold getBuffer, getAttribute, JS.read. unfold_monad.
    rewrite new_Geometry_run. cbn [snd with_geometry geometry].
    unfold constructor_calls, attribute_calls. cbn [d_attributes app].
    destruct ib as [ib|]; cbn [d_indexBuffer run call];
      rewrite ?addIndex_eq; now destruct (JS.inherited id).
Qed.

Lemma getBuffer_of_missing_attribute_witness :
  (getAttribute "aUv" quad_world = (Return JS.undefined, quad_world)
   /\ getBuffer "aUv" quad_world = (Throw TypeError, quad_world))
  /\ (getAttribute "constructor" quad_world
      = (Return (JS.builtin "constructor"), quad_world)
      /\ getBuffer "constructor" quad_world = (Return None, quad_world)).
Proof.
  pose (a := [("aPosition",
               mkAttribute 0 None None None None (Some 2%float) None None)]).
  split.
  - exact (proj1 (proj1 (getBuffer_of_missing_attribute quad_world a "aUv" []
                           None None None) eq_refl eq_refl eq_refl) eq_refl).
  - exact (proj2 (proj1 (getBuffer_of_missing_attribute quad_world a
                           "constructor" [] None None None)
                    eq_refl eq_refl eq_refl) eq_refl).
Defined.

(** X9. [getIndex] returns the Buffer the last [addIndex] resolved to, also
    when that [addIndex] threw on a destroyed Geometry; right after a
    [destroy] that returned it returns [null]. It never throws and changes
    nothing. *)
Theorem getIndex_of_last_addIndex `{BoundsCalculator} (w : World)
  (ib : BufferLike) (destroyBuffers : bool) :
  getIndex w = (Return (indexBuffer (geometry w)), w)
  /\ fst (getIndex (snd (addIndex ib w))) = Return (Some (resolves_to w ib))
  /\ (fst (destroy destroyBuffers w) = Return tt ->
      fst (getIndex (snd (destroy destroyBuffers w))) = Return None).
Proof.
  split; [reflexivity|]. split.
  - rewrite addIndex_eq. cbn zeta. now destruct (buffers (geometry w)).
  - rewrite destroy_eq. cbn zeta. destruct destroyBuffers; [|done].
    now destruct (buffers (geometry w)).
Qed.

Lemma getIndex_of_last_addIndex_witness :
  fst (getIndex (snd (destroy true quad_world))) = Return None.
Proof.
  exact (proj2 (proj2 (getIndex_of_last_addIndex quad_world (a_Buffer 0) true))
           eq_refl).
Defined.

(** ** Calls on a destroyed Geometry *)

(** X10. Once [destroy] has returned, whatever is called afterwards, [addIndex]
    throws a TypeError, but only after it has assigned [indexBuffer]: the
    index buffer is the Buffer the call resolved to, and [buffers] is still
    [null]. *)
Theorem addIndex_after_destroy `{BoundsCalculator} (w : World)
  (destroyBuffers : bool) (calls : list Call) (ib : BufferLike) :
  fst (destroy destroyBuffers w) = Return tt ->
  let w' := run calls (snd (destroy destroyBuffers w)) in
  fst (addIndex ib w') = Throw TypeError
  /\ indexBuffer (geometry (snd (addIndex ib w'))) = Some (resolves_to w' ib)
  /\ buffers (geometry (snd (addIndex ib w'))) = None
  /\ torn_down (snd (addIndex ib w')).
Proof.
  intros Hret w'.
  assert (torn_down w') as (Ha & Hb & Hc)
    by now apply run_torn_down, destroy_returns.
  rewrite addIndex_eq. cbn zeta. rewrite Hb. cbn. repeat split; done.
Qed.

Lemma addIndex_after_destroy_witness :
  fst (addIndex (a_number_array [0; 1; 2]%float)
         (run [call_getSize] (snd (destroy false quad_world))))
  = Throw TypeError.
Proof.
  exact (proj1 (addIndex_after_destroy quad_world false [call_getSize]
                  (a_number_array [0; 1; 2]%float) eq_refl)).
Defined.

(** X11. After a [destroy] that returned, [destroy(false)] returns again: it
    emits [destroy], to no listener, and changes nothing else;
    [destroy(true)] throws a TypeError, having emitted [destroy], because
    [buffers] is [null]. *)
Theorem destroy_twice `{BoundsCalculator} (w : World) (destroyBuffers : bool) :
  fst (destroy destroyBuffers w) = Return tt ->
  let w' := snd (destroy destroyBuffers w) in
  destroy false w' = (Return tt, with_trace w' (trace w' ++ [emitted "destroy"]))
  /\ destroy true w'
     = (Throw TypeError, with_trace w' (trace w' ++ [emitted "destroy"])).
Proof.
  intros Hret w'. subst w'. revert Hret. rewrite !destroy_eq. cbn zeta.
  destruct destroyBuffers.
  - destruct (buffers (geometry w)) as [bs|]; [|discriminate].
    intros _. split; reflexivity.
  - intros _. split; reflexivity.
Qed.

Lemma destroy_twice_witness :
  destroy true (snd (destroy true quad_world))
  = (Throw TypeError,
     with_trace (snd (destroy true quad_world))
       (trace (snd (destroy true quad_world)) ++ [emitted "destroy"])).
Proof. exact (proj2 (destroy_twice quad_world true eq_refl)). Defined.

(** ** What leaves the cache as it is *)

Lemma call_keeps_cache `{BoundsCalculator} (c : Call) (w : World) :
  keeps_cache c ->
  _boundsDirty (geometry (snd (call c w))) = _boundsDirty (geometry w)
  /\ _bounds (geometry (snd (call c w))) = _bounds (geometry w)
  /\ bounds_heap (snd (call c w)) = bounds_heap w.
Proof.
  destruct c; cbn [call keeps_cache]; intros Hc; try done;
    rewrite ?discard_snd, ?getAttribute_snd, ?getBuffer_snd, ?getSize_snd;
    try done.
  - rewrite addAttribute_eq. cbn zeta.
    destruct (buffers (geometry w)) as [bs|]; [|done].
    now destruct (indexOf bs _ 0 =? -1)%Z, (attributes (geometry w)).
  - rewrite addIndex_eq. cbn zeta. now destruct (buffers (geometry w)).
Qed.

Lemma run_keeps_cache `{BoundsCalculator} (cs : list Call) (w : World) :
  Forall keeps_cache cs ->
  _boundsDirty (geometry (run cs w)) = _boundsDirty (geometry w)
  /\ _bounds (geometry (run cs w)) = _bounds (geometry w)
  /\ bounds_heap (run cs w) = bounds_heap w.
Proof.
  revert w. induction cs as [|c cs IH]; intros w Hcs; [done|].
  inversion Hcs as [|? ? Hc Hrest]; subst. cbn [run].
  destruct (IH (snd (call c w)) Hrest) as (-> & -> & ->).
  now apply call_keeps_cache.
Qed.

(** X12. Only a read of [bounds] and a notification of a buffer change
    [_boundsDirty]; [addAttribute] and [addIndex] do not set it. After a
    read of [bounds], any calls of [addAttribute], [addIndex], the
    accessors and [on], replacing the attribute [aPosition] among them,
    leave the cache as it is: the next read returns the same object with
    the same box and calls the calculator no more. *)
Theorem addAttribute_keeps_cache `{BoundsCalculator} (w : World)
  (calls : list Call) :
  Forall keeps_cache calls ->
  _boundsDirty (geometry (run calls w)) = _boundsDirty (geometry w)
  /\ (_boundsDirty (geometry w) = false ->
      bounds (run calls w) = (Return (_bounds (geometry w)), run calls w)
      /\ bounds_heap (run calls w) = bounds_heap w).
Proof.
  intros Hcalls. destruct (run_keeps_cache calls w Hcalls) as (Hd & Hb & Hh).
  split; [exact Hd|]. intros Hclean. split; [|exact Hh].
  rewrite bounds_clean by congruence. now rewrite Hb.
Qed.

Lemma addAttribute_keeps_cache_witness :
  bounds
    (run [call_addAttribute "aPosition" (bare (a_number_array [5; 5; 9; 9]%float))]
       (snd (bounds quad_world)))
  = (Return (_bounds (geometry (snd (bounds quad_world)))),
     run [call_addAttribute "aPosition" (bare (a_number_array [5; 5; 9; 9]%float))]
       (snd (bounds quad_world))).
Proof.
  refine (proj1 (proj2
            (addAttribute_keeps_cache (snd (bounds quad_world))
               [call_addAttribute "aPosition"
                  (bare (a_number_array [5; 5; 9; 9]%float))] _) eq_refl)).
  constructor; [exact I|constructor].
Defined.

Lemma call_cache_in_place `{BoundsCalculator} (c : Call) (w : World) :
  cache_in_place w -> cache_in_place (snd (call c w)).
Proof.
  intros [[Hlive Hb]|Htorn]; [|right; now apply call_torn_down].
  assert (keeps_collections c -> cache_in_place (snd (call c w))) as Hkeep.
  { intros Hk. destruct (call_keeps_collections c w Hk) as (Ea & Eb & _ & Ec).
    left. unfold live. now rewrite Ea, Eb, Ec. }
  destruct c; try (apply Hkeep; exact I); clear Hkeep; cbn [call].
  - left. split; [now apply addAttribute_live|].
    destruct (call_keeps_cache (call_addAttribute name attributeOption) w I)
      as (_ & Hb' & _). cbn [call] in Hb'. now rewrite Hb'.
  - left. destruct Hlive as [[a Ha] [bs Hbs]].
    rewrite addIndex_eq. cbn zeta. rewrite Hbs. cbn.
    split; [split; eauto|exact Hb].
  - right. apply destroy_returns. destruct Hlive as [_ [bs Hbs]].
    rewrite destroy_eq. cbn zeta. rewrite Hbs. now destruct destroyBuffers.
Qed.

Lemma run_cache_in_place `{BoundsCalculator} (cs : list Call) (w : World) :
  cache_in_place w -> cache_in_place (run cs w).
Proof.
  revert w. induction cs as [|c cs IH]; intros w Hw; cbn; [done|].
  now apply IH, call_cache_in_place.
Qed.

(** X13. Through the life of a Geometry, whatever is called on it, [_bounds]
    is the one Bounds object the constructor made, until [destroy] clears
    it together with the collections: every read of [bounds] with the flag
    clear on a Geometry that is not destroyed returns that object and
    changes nothing. *)
Theorem bounds_same_object `{BoundsCalculator}
  (options : GeometryDescriptor) (heap : list Buffer) (calls : list Call) :
  let w := run calls (snd (new_Geometry options heap)) in
  ((live w /\ _bounds (geometry w) = Some 0) \/ torn_down w)
  /\ (live w -> _boundsDirty (geometry w) = false ->
      bounds w = (Return (Some 0), w)).
Proof.
  intros w.
  assert (cache_in_place w) as Hw.
  { apply run_cache_in_place. left.
    destruct (new_Geometry_quiet options heap) as (_ & _ & Hb & _ & Hlive).
    now split. }
  split; [exact Hw|]. intros [[a Ha] _] Hclean.
  rewrite (bounds_clean w Hclean).
  destruct Hw as [[_ ->]|(Ha' & _)]; [done|congruence].
Qed.

Lemma bounds_same_object_witness :
  bounds (run [call_bounds; call_getSize] quad_world)
  = (Return (Some 0), run [call_bounds; call_getSize] quad_world).
Proof.
  refine (proj2
            (bounds_same_object
               (descriptor_of
                  [("aPosition",
                    attribute_of (a_number_array quad) None (Some 2%float))]
                  None)
               [] [call_bounds; call_getSize]) _ eq_refl).
  split; eexists; reflexivity.
Defined.

(** ** One subscription for each buffer *)

Lemma subscribe_both (heap : list Buffer) (at_ref ref : nat) (event : string) :
  heap_subscriptions heap at_ref event = 0 ->
  heap_subscriptions
    (alter (subscribe "change") at_ref (alter (subscribe "update") at_ref heap))
    ref event
  <= Nat.max 1 (heap_subscriptions heap ref event)
  /\ (ref <> at_ref ->
      heap_subscriptions
        (alter (subscribe "change") at_ref
           (alter (subscribe "update") at_ref heap)) ref event
      = heap_subscriptions heap ref event).
Proof.
  intros Hzero. split.
  - destruct (decide (at_ref = ref)) as [<-|Hne].
    + destruct (decide (at_ref < length heap)) as [Hlt|Hge].
      * rewrite heap_subscriptions_subscribe by now rewrite length_alter.
        rewrite heap_subscriptions_subscribe by done. rewrite Hzero.
        destruct (String.eqb "update" event) eqn:E1,
          (String.eqb "change" event) eqn:E2; cbn; try lia.
        apply String.eqb_eq in E1, E2. subst event. discriminate E2.
      * unfold heap_subscriptions. rewrite !list_lookup_alter_eq.
        rewrite (lookup_ge_None_2 heap) by lia. cbn. lia.
    + rewrite !heap_subscriptions_alter_ne by done. lia.
  - intros Hne. now rewrite !heap_subscriptions_alter_ne.
Qed.

Lemma call_subscribed_once `{BoundsCalculator} (c : Call) (w : World) :
  subscribed_once w -> subscribed_once (snd (call c w)).
Proof.
  intros Hw.
  assert (keeps_collections c -> subscribed_once (snd (call c w))) as Hkeep.
  { intros Hk ref event.
    destruct (call_keeps_collections c w Hk) as (_ & Eb & _).
    rewrite call_subscriptions_keep by now destruct c.
    rewrite Eb. apply Hw. }
  destruct c; try (apply Hkeep; exact I); clear Hkeep; intros ref event.
  - cbn [call]. rewrite addAttribute_eq. cbn zeta.
    set (r := resolves_to w (option_buffer attributeOption)).
    pose proof (heap_subscriptions_resolved w (option_buffer attributeOption)
                  false) as Hres.
    destruct (buffers (geometry w)) as [bs|] eqn:Hbs.
    2: { unfold subscriptions at 1 2. cbn [snd buffer_heap geometry].
         rewrite Hres. split; [apply Hw|]. rewrite Hbs. intros _ bs' [=]. }
    destruct (Hw ref event) as [Hle Hin].
    destruct (indexOf bs r 0 =? -1)%Z eqn:Hi.
    + apply indexOf_absent in Hi; [|done].
      assert (subscriptions w r event = 0) as Hzero.
      { destruct (Hw r event) as [_ Hin'].
        destruct (subscriptions w r event); [done|].
        exfalso. apply Hi, (Hin' ltac:(lia) bs Hbs). }
      rewrite <- Hres in Hzero.
      destruct (subscribe_both _ r ref event Hzero) as [Hmax Hother].
      rewrite Hres in Hmax.
      destruct (attributes (geometry w)) as [attrs|];
        unfold subscriptions at 1 2;
        cbn [snd buffer_heap geometry buffers set_attributes set_buffers];
        (split; [lia|]);
        intros Hpos bs' [= <-]; apply elem_of_app;
        (destruct (decide (ref = r)) as [->|Hne]; [right; left|]);
        left; rewrite Hother, Hres in Hpos by done;
        exact (Hin Hpos bs Hbs).
    + destruct (attributes (geometry w)) as [attrs|];
        unfold subscriptions at 1 2;
        cbn [snd buffer_heap geometry buffers set_attributes];
        rewrite Hres, ?Hbs; (split; [exact Hle|]);
        intros Hpos bs' [= <-]; exact (Hin Hpos bs Hbs).
  - rewrite call_subscriptions_keep by exact I.
    destruct (Hw ref event) as [Hle Hin]. split; [exact Hle|].
    intros Hpos bs'. cbn [call]. rewrite addIndex_eq. cbn zeta.
    destruct (buffers (geometry w)) as [bs|] eqn:Hbs;
      cbn [snd geometry buffers set_buffers set_indexBuffer];
      [|rewrite Hbs; discriminate].
    intros [= <-]. apply elem_of_app. left. now apply (Hin Hpos).
  - rewrite call_subscriptions_keep by exact I.
    destruct (Hw ref event) as [Hle Hin]. split; [exact Hle|].
    intros Hpos bs'. cbn [call]. rewrite destroy_eq. cbn zeta.
    destruct destroyBuffers.
    + destruct (buffers (geometry w)) as [bs|] eqn:Hbs; cbn;
        [discriminate|]. rewrite Hbs. discriminate.
    + cbn. discriminate.
Qed.

Lemma run_subscribed_once `{BoundsCalculator} (cs : list Call) (w : World) :
  subscribed_once w -> subscribed_once (run cs w).
Proof.
  revert w. induction cs as [|c cs IH]; intros w Hw; cbn; [done|].
  now apply IH, call_subscribed_once.
Qed.

Lemma handler_runs (ref : nat) (event : string) (g : Geometry)
  (ls : list Listener) :
  length (filter (fun e => e = handler_run)
            (flat_map (listener_trace ref event g) ls))
  = handler_count ls.
Proof.
  induction ls as [|fn ls IH]; [done|].
  cbn [flat_map]. rewrite list.filter_app, length_app, IH.
  unfold handler_count. destruct fn as [|id].
  - rewrite (filter_cons_True (fun fn => fn = onBufferUpdate_listener)) by done.
    cbn [listener_trace]. unfold emit_trace.
    rewrite filter_cons_True by done. rewrite filter_cons_False by done.
    assert (filter (fun e => e = handler_run)
              (map (invoked "update") (listeners "update" (_events g))) = [])
      as ->.
    { induction (listeners "update" (_events g)) as [|x l IHl]; [done|].
      cbn [map]. now rewrite filter_cons_False. }
    reflexivity.
  - rewrite (filter_cons_False (fun fn => fn = onBufferUpdate_listener))
      by done.
    cbn [listener_trace]. now rewrite filter_cons_False.
Qed.

(** X14. On a Geometry constructed over buffers that carry no handler of it,
    whatever is called on it, [onBufferUpdate] is registered at most once
    for an event of a buffer, however many attributes share the buffer: a
    notification of a buffer runs [onBufferUpdate] once or not at all. *)
Theorem one_handler_for_each_buffer `{BoundsCalculator}
  (options : GeometryDescriptor) (heap : list Buffer) (calls : list Call)
  (ref : nat) (event : string) :
  (forall r e, heap_subscriptions heap r e = 0) ->
  let w := run calls (snd (new_Geometry options heap)) in
  subscriptions w ref event <= 1
  /\ exists added,
      trace (snd (Buffer_emit ref event w)) = trace w ++ added
      /\ length (filter (fun e => e = handler_run) added)
         = subscriptions w ref event.
Proof.
  intros Hheap w.
  assert (subscribed_once w) as Hw.
  { apply run_subscribed_once.
    apply (new_Geometry_invariant subscribed_once).
    - intros r e. unfold subscriptions. cbn [initial_world buffer_heap].
      rewrite Hheap. split; [lia|intros Hpos; lia].
    - intros attrs name o w0 _ _.
      apply (call_subscribed_once (call_addAttribute name o)).
    - intros ib w0 _. apply (call_subscribed_once (call_addIndex ib)).
    - intros v w0 Hw0. exact Hw0.
    - intros v w0 Hw0. exact Hw0. }
  split; [apply Hw|].
  rewrite Buffer_emit_eq. cbn [snd]. unfold subscriptions, heap_subscriptions.
  destruct (buffer_heap w !! ref) as [b|].
  - eexists. split; [reflexivity|]. apply handler_runs.
  - exists []. now rewrite app_nil_r.
Qed.

Lemma one_handler_for_each_buffer_witness :
  subscriptions
    (run [call_addAttribute "aUv" (bare (a_Buffer 0))]
       (snd (new_Geometry
               (descriptor_of [("aPosition", bare (a_Buffer 0))] None)
               [quad_Buffer])))
    0 "update"
  <= 1.
Proof.
  refine (proj1 (one_handler_for_each_buffer
                   (descriptor_of [("aPosition", bare (a_Buffer 0))] None)
                   [quad_Buffer]
                   [call_addAttribute "aUv" (bare (a_Buffer 0))] 0 "update" _)).
  intros r e. unfold heap_subscriptions.
  destruct r as [|r]; [reflexivity|]. now destruct r.
Defined.

(** ** getSize and the other attributes *)






(** ** The listeners of a destroyed Geometry *)

Lemma invocations_app (t1 t2 : list Effect) :
  invocations (t1 ++ t2) = invocations t1 + invocations t2.
Proof. unfold invocations. now rewrite list.filter_app, length_app. Qed.

Lemma invocations_none (t : list Effect) :
  Forall (fun e => is_invoked e = false) t -> invocations t = 0.
Proof.
  unfold invocations. induction 1 as [|e t He _ IH]; [done|].
  rewrite filter_cons_False by congruence. exact IH.
Qed.

Lemma listener_trace_silent (ref : nat) (event : string) (g : Geometry)
  (ls : list Listener) :
  _events g = [] ->
  Forall (fun e => is_invoked e = false)
    (flat_map (listener_trace ref event g) ls).
Proof.
  intros He. induction ls as [|fn ls IH]; cbn [flat_map]; [constructor|].
  apply Forall_app. split; [|exact IH].
  destruct fn; cbn [listener_trace]; unfold emit_trace; rewrite ?He;
    repeat constructor.
Qed.

Lemma call_silent `{BoundsCalculator} (c : Call) (w : World) :
  _events (geometry w) = [] -> ~ registers_listener c ->
  _events (geometry (snd (call c w))) = []
  /\ invocations (trace (snd (call c w))) = invocations (trace w).
Proof.
  intros He Hc.
  destruct c; cbn [call registers_listener] in Hc |- *;
    rewrite ?discard_snd, ?getAttribute_snd, ?getBuffer_snd, ?getSize_snd;
    try done.
  - rewrite addAttribute_eq. cbn zeta.
    destruct (buffers (geometry w)) as [bs|]; [|done].
    now destruct (indexOf bs _ 0 =? -1)%Z, (attributes (geometry w)).
  - rewrite addIndex_eq. cbn zeta. now destruct (buffers (geometry w)).
  - destruct (_boundsDirty (geometry w)) eqn:Hd.
    + rewrite (bounds_dirty w Hd). cbn zeta.
      assert (invocations (trace w ++ [recomputed "aPosition"])
              = invocations (trace w)) as Ht.
      { rewrite invocations_app, (invocations_none [recomputed "aPosition"]);
          [lia|repeat constructor]. }
      destruct (attributes (geometry w)); [|done].
      destruct (_bounds (geometry w)) as [ref|]; [|done].
      destruct (bounds_heap w !! ref); [|done].
      now destruct (bounds_box _ _ _ _).
    + now rewrite (bounds_clean w Hd).
  - rewrite destroy_eq. cbn zeta. unfold emit_trace. rewrite He.
    assert (invocations (trace w ++ [emitted "destroy"])
            = invocations (trace w)) as Ht.
    { rewrite invocations_app, (invocations_none [emitted "destroy"]);
        [lia|repeat constructor]. }
    destruct destroyBuffers; [destruct (buffers (geometry w)) as [bs|]|];
      cbn [snd geometry trace map listeners]; (split; [done|]); try exact Ht.
    rewrite invocations_app, Ht.
    rewrite (invocations_none (map buffer_destroy bs)); [lia|].
    clear. induction bs as [|x bs IH]; cbn [map]; constructor;
      [reflexivity|exact IH].
  - rewrite Buffer_emit_eq. cbn [snd].
    destruct (buffer_heap w !! ref) as [b|]; [|done].
    cbn [geometry trace]. split; [now destruct (handler_count _)|].
    rewrite invocations_app.
    rewrite (invocations_none (flat_map _ _)); [lia|].
    now apply listener_trace_silent.
Qed.

(** X16. Once [destroy] has returned, no listener of the Geometry is invoked
    again, whatever is called, as long as the program registers none anew:
    notifications of the buffers still run [onBufferUpdate], but its
    [update] reaches nobody. *)
Theorem destroyed_listeners_stay_silent `{BoundsCalculator} (w : World)
  (destroyBuffers : bool) (calls : list Call) :
  fst (destroy destroyBuffers w) = Return tt ->
  Forall (fun c => ~ registers_listener c) calls ->
  _events (geometry (run calls (snd (destroy destroyBuffers w)))) = []
  /\ invocations (trace (run calls (snd (destroy destroyBuffers w))))
     = invocations (trace (snd (destroy destroyBuffers w))).
Proof.
  intros Hret Hcalls.
  assert (_events (geometry (snd (destroy destroyBuffers w))) = []) as He.
  { revert Hret. rewrite destroy_eq. cbn zeta.
    destruct destroyBuffers; [|done]. now destruct (buffers (geometry w)). }
  clear Hret. revert He. generalize (snd (destroy destroyBuffers w)).
  induction Hcalls as [|c cs Hc _ IH]; intros w0 He; [done|].
  cbn [run]. destruct (call_silent c w0 He Hc) as [He' Ht'].
  destruct (IH _ He') as [He'' Ht'']. split; [exact He''|congruence].
Qed.

Lemma destroyed_listeners_stay_silent_witness :
  invocations
    (trace (run [call_Buffer_emit 0 "change"]
              (snd (destroy false (run [call_on "update" 7] quad_world)))))
  = invocations
      (trace (snd (destroy false (run [call_on "update" 7] quad_world)))).
Proof.
  refine (proj2
            (destroyed_listeners_stay_silent
               (run [call_on "update" 7] quad_world) false
               [call_Buffer_emit 0 "change"] eq_refl _)).
  constructor; [intros []|constructor].
Defined.
